(** * TUID: timestamp-based unique identifiers

    A shallow embedding of [src/index.ts] (class [TUIDGenerator]) and the
    properties of its construction, generation, validation and parsing
    operations.

    Conventions of the embedding.
    - A JavaScript string is the list of its UTF-16 code units ([jstring]).
    - A JavaScript number is a [jsnum]: a finite value (carried as a rational,
      every double being one), [NaN] or a signed infinity.  The two zeros are
      not distinguished: the program never divides and never uses [Object.is].
    - [Date.now()] and [Math.random()] are the environment: a call consumes
      clock readings from a trace and receives the base-36 renderings of its
      two random draws. *)

From Stdlib Require Import Ascii String.
From Stdlib Require Import ZArith NArith QArith List Bool Lia Sorted.
Import ListNotations.

Local Open Scope Z_scope.

(** [lia] reasons about division and remainder by a constant. *)
Ltac Zify.zify_post_hook ::= Z.to_euclidean_division_equations.

(* ================================================================== *)
(** * JavaScript strings                                                *)
(* ================================================================== *)

Abbreviation code_unit := N (only parsing).
Abbreviation jstring := (list N).

(** Literals: the code units of an ASCII literal. *)
Definition js (s : string) : jstring :=
  map N_of_ascii (list_ascii_of_string s).

(** [String.prototype.substring(start, end)]: both indices are clamped to
    the length and swapped when out of order. *)
Definition substring (s : jstring) (start finish : nat) : jstring :=
  let len := length s in
  let intStart := Nat.min start len in
  let intEnd := Nat.min finish len in
  let from := Nat.min intStart intEnd in
  let to := Nat.max intStart intEnd in
  firstn (to - from) (skipn from s).

(** [String.prototype.split(separator)] for a one-code-unit separator and no
    limit: the pieces between the occurrences, in order (never empty). *)
Fixpoint split (sep : code_unit) (s : jstring) : list jstring :=
  match s with
  | [] => [[]]
  | c :: s' =>
      if N.eqb c sep then [] :: split sep s'
      else match split sep s' with
           | [] => [[c]]
           | piece :: pieces => (c :: piece) :: pieces
           end
  end.

(** Array destructuring [const [a, b, ...] = arr]: position [i], or
    [undefined] ([None]) past the end. *)
Definition element (arr : list jstring) (i : nat) : option jstring :=
  nth_error arr i.

(** [ToString] of a possibly undefined string value. *)
Definition ToString (v : option jstring) : jstring :=
  match v with
  | Some s => s
  | None => js "undefined"
  end.

(* ================================================================== *)
(** * JavaScript numbers                                                *)
(* ================================================================== *)

Inductive jsnum : Type :=
| JNum (q : Q)            (* a finite value *)
| JNaN
| JInf (negative : bool). (* +Infinity / -Infinity *)

Definition of_Z (z : Z) : jsnum := JNum (inject_Z z).

(** The relational operator [x < y] on numbers: false as soon as an operand
    is [NaN]. *)
Definition js_lt (x y : jsnum) : bool :=
  match x, y with
  | JNaN, _ | _, JNaN => false
  | JNum a, JNum b => negb (Qle_bool b a)
  | JNum _, JInf negative => negb negative
  | JInf negative, JNum _ => negative
  | JInf n1, JInf n2 => n1 && negb n2
  end.

(** [x > y] is [y < x]. *)
Definition js_gt (x y : jsnum) : bool := js_lt y x.

Definition is_integer (q : Q) : bool :=
  (Qnum q mod Zpos (Qden q) =? 0).

Definition integer_value (q : Q) : Z := Qnum q / Zpos (Qden q).

(** [ToInt32], applied by the bitwise operators to an integral operand. *)
Definition ToInt32 (z : Z) : Z := (z + 2 ^ 31) mod 2 ^ 32 - 2 ^ 31.

(** ** Decimal rendering of integers *)

Definition digit_unit (d : N) : code_unit := (48 + d)%N.

Fixpoint decimal_digits_fuel (fuel : nat) (n : N) (acc : jstring) : jstring :=
  match fuel with
  | O => acc
  | S fuel' =>
      let acc' := digit_unit (n mod 10) :: acc in
      if (n <? 10)%N then acc' else decimal_digits_fuel fuel' (n / 10) acc'
  end.

(** The decimal digits of [n], most significant first, no leading zero. *)
Definition decimal_digits (n : N) : jstring :=
  decimal_digits_fuel (S (N.to_nat (N.log2 n))) n [].

Definition minus_sign : code_unit := 45%N.  (* "-" *)

Definition Z_toString (z : Z) : jstring :=
  match z with
  | Zneg p => minus_sign :: decimal_digits (Npos p)
  | _ => decimal_digits (Z.to_N z)
  end.

Section NumberToString.

  (** [Number::toString] on a finite value that is not an integer of
      magnitude below 10^21 produces the shortest decimal that reads back as
      the same double, possibly in exponent notation.  That digit generation
      depends on the binary representation and is left abstract; no integer
      below 10^21 goes through it. *)
Variable fraction_toString : Q -> jstring.

Definition Number_toString (x : jsnum) : jstring :=
    match x with
    | JNaN => js "NaN"
    | JInf false => js "Infinity"
    | JInf true => js "-Infinity"
    | JNum q =>
        if is_integer q && (Z.abs (integer_value q) <? 10 ^ 21)
        then Z_toString (integer_value q)
        else fraction_toString q
    end.

End NumberToString.

(** ** [parseInt(string, 10)] *)

(** White space and line terminators stripped in front of the number. *)
Definition is_StrWhiteSpaceChar (c : code_unit) : bool :=
  existsb (N.eqb c)
    [9; 10; 11; 12; 13; 32; 160; 5760; 8192; 8193; 8194; 8195; 8196; 8197;
     8198; 8199; 8200; 8201; 8202; 8232; 8233; 8239; 8287; 12288; 65279]%N.

Fixpoint trim_start (s : jstring) : jstring :=
  match s with
  | c :: s' => if is_StrWhiteSpaceChar c then trim_start s' else s
  | [] => []
  end.

Definition is_decimal_digit_unit (c : code_unit) : bool :=
  ((48 <=? c) && (c <=? 57))%N.

(** The longest prefix of decimal digits. *)
Fixpoint digit_prefix (s : jstring) : jstring :=
  match s with
  | c :: s' => if is_decimal_digit_unit c then c :: digit_prefix s' else []
  | [] => []
  end.

(** The mathematical integer denoted by a string of decimal digits. *)
Definition digits_value (ds : jstring) : N :=
  fold_left (fun acc c => (10 * acc + (c - 48))%N) ds 0%N.

(** The Number nearest to a natural number: itself up to 53 bits, otherwise
    rounded to 53 significant bits, ties to even, and [Infinity] from 2^1024. *)
Definition nearest_double (n : N) : jsnum :=
  let bits := N.size n in
  if (bits <=? 53)%N then of_Z (Z.of_N n)
  else
    let shift := (bits - 53)%N in
    let q := N.shiftr n shift in
    let r := (n - N.shiftl q shift)%N in
    let half := N.shiftl 1 (shift - 1) in
    let q' := if (half <? r)%N || ((r =? half)%N && N.odd q) then (q + 1)%N else q in
    let m := N.shiftl q' shift in
    if (2 ^ 1024 <=? m)%N then JInf false else of_Z (Z.of_N m).

Definition negate (x : jsnum) : jsnum :=
  match x with
  | JNum q => JNum (- q)
  | JNaN => JNaN
  | JInf negative => JInf (negb negative)
  end.

(** [parseInt(string, 10)]: leading white space is skipped, one sign is
    accepted, the longest run of decimal digits is read and what follows is
    ignored; no digit at all gives [NaN].  (Beyond 20 significant digits an
    implementation may round the digits first; the model reads them all.) *)
Definition parseInt10 (v : option jstring) : jsnum :=
  let inputString := ToString v in
  let trimmed := trim_start inputString in
  let '(negative, unsigned) :=
    match trimmed with
    | c :: rest =>
        if (c =? 45)%N then (true, rest)
        else if (c =? 43)%N then (false, rest)
        else (false, trimmed)
    | [] => (false, trimmed)
    end in
  match digit_prefix unsigned with
  | [] => JNaN
  | digits =>
      let number := nearest_double (digits_value digits) in
      if negative then negate number else number
  end.

(* ================================================================== *)
(** * Regular expressions                                               *)
(* ================================================================== *)

(** The fragment of the pattern language that [v1Pattern] is written in:
    a sequence of terms, each an assertion ([^], [$]), an atom, or an atom
    under a bounded greedy quantifier [{min,max}].  An atom matches one code
    unit: a literal character, [\d], or a class of ranges such as [a-z0-9]. *)

Inductive Atom : Type :=
| PatternCharacter (c : code_unit)
| ClassEscape_d
| CharacterClass (ranges : list (code_unit * code_unit)).

Inductive Term : Type :=
| AssertStart                       (* ^ *)
| AssertEnd                         (* $ *)
| TAtom (a : Atom)                  (* atom *)
| TQuantified (a : Atom) (min max : nat). (* atom{min,max} *)

Definition Pattern := list Term.

Definition atom_matches (a : Atom) (c : code_unit) : bool :=
  match a with
  | PatternCharacter ch => (c =? ch)%N
  | ClassEscape_d => ((48 <=? c) && (c <=? 57))%N
  | CharacterClass ranges =>
      existsb (fun '(lo, hi) => ((lo <=? c) && (c <=? hi))%N) ranges
  end.

(** A continuation receives the end index reached so far and the input that
    remains from there. *)
Definition Continuation := nat -> jstring -> bool.

(** The repeat matcher of a greedy quantifier: take one more iteration when
    possible, and fall back to the continuation once [min] is reached. *)
Fixpoint RepeatMatcher (a : Atom) (min max : nat)
         (index : nat) (rest : jstring) (c : Continuation) : bool :=
  match max with
  | O => c index rest
  | S max' =>
      let iterate :=
        match rest with
        | ch :: rest' =>
            atom_matches a ch
            && RepeatMatcher a (Nat.pred min) max' (S index) rest' c
        | [] => false
        end in
      match min with
      | O => iterate || c index rest
      | S _ => iterate
      end
  end.

Definition match_term (t : Term) (index : nat) (rest : jstring)
           (c : Continuation) : bool :=
  match t with
  | AssertStart => (index =? 0)%nat && c index rest
  | AssertEnd => match rest with [] => c index rest | _ :: _ => false end
  | TAtom a =>
      match rest with
      | ch :: rest' => atom_matches a ch && c (S index) rest'
      | [] => false
      end
  | TQuantified a min max => RepeatMatcher a min max index rest c
  end.

Fixpoint match_pattern (p : Pattern) (index : nat) (rest : jstring)
         (c : Continuation) : bool :=
  match p with
  | [] => c index rest
  | t :: p' => match_term t index rest (fun i r => match_pattern p' i r c)
  end.

(** [RegExp.prototype.test] without the [g] and [y] flags: the pattern is
    tried from index 0, then from each later index up to the length. *)
Fixpoint exec_from (p : Pattern) (index : nat) (rest : jstring) : bool :=
  match_pattern p index rest (fun _ _ => true)
  || match rest with
     | [] => false
     | _ :: rest' => exec_from p (S index) rest'
     end.

Definition RegExp_test (p : Pattern) (s : jstring) : bool := exec_from p 0 s.

Definition dash : code_unit := 45%N.

Definition lower_alnum : Atom :=
  CharacterClass [(97, 122); (48, 57)]%N.   (* [a-z0-9] *)

(** [/^\d{13}-\d{1,4}-\d{1,4}-[a-z0-9]{4}-[a-z0-9]{4}$/] *)
Definition v1Pattern : Pattern :=
  [ AssertStart;
    TQuantified ClassEscape_d 13 13; TAtom (PatternCharacter dash);
    TQuantified ClassEscape_d 1 4;   TAtom (PatternCharacter dash);
    TQuantified ClassEscape_d 1 4;   TAtom (PatternCharacter dash);
    TQuantified lower_alnum 4 4;     TAtom (PatternCharacter dash);
    TQuantified lower_alnum 4 4;
    AssertEnd ].

(* ================================================================== *)
(** * The environment: clock and randomness                             *)
(* ================================================================== *)

(** The readings that [Date.now()] will return, in order.  A computation
    that needs a reading when none is left has not finished within the
    observed trace: it yields [None]. *)
Definition Clock := list Z.

Notation "x <- e ;; k" :=
  (match e with Some x => k | None => None end)
  (at level 61, e at next level, right associativity).
Notation "' p <- e ;; k" :=
  (match e with Some p => k | None => None end)
  (at level 61, p pattern, e at next level, right associativity).

(** [Math.random().toString(36)]: the draw is a double in [0, 1), printed as
    [0] when it is zero and otherwise as [0.] followed by its base-36
    fractional digits, as many as the value needs.  The digit string is an
    input of a call; [radix36_value] reads one back. *)
Definition radix36_digit (c : code_unit) : option Z :=
  if ((48 <=? c) && (c <=? 57))%N then Some (Z.of_N c - 48)
  else if ((97 <=? c) && (c <=? 122))%N then Some (Z.of_N c - 87)
  else None.

Fixpoint radix36_fraction (ds : jstring) : option Q :=
  match ds with
  | [] => Some 0%Q
  | c :: ds' =>
      d <- radix36_digit c ;;
      tail <- radix36_fraction ds' ;;
      Some ((inject_Z d + tail) / 36)%Q
  end.

Definition radix36_value (s : jstring) : option Q :=
  match s with
  | [48%N] => Some 0%Q
  | 48%N :: 46%N :: (_ :: _) as ds => radix36_fraction ds
  | _ => None
  end.

(* ================================================================== *)
(** * class TUIDGenerator                                               *)
(* ================================================================== *)

Inductive JsError : Type :=
| Error (message : jstring).

(** The instance fields. *)
Record TUIDGenerator : Type := {
  sequence : Z;
  lastTimestamp : Z;
  machineId : jsnum
}.

(** [constructor(machineId)]: the field initialisers, then the range check. *)
Definition new_TUIDGenerator (machineId : jsnum) : JsError + TUIDGenerator :=
  if js_lt machineId (of_Z 0) || js_gt machineId (of_Z 1023)
  then inl (Error (js "Machine ID must be between 0 and 1023."))
  else inr {| sequence := 0; lastTimestamp := -1; machineId := machineId |}.

(** [static isValidTUID(tuid)] *)
Definition isValidTUID (tuid : jstring) : bool :=
  RegExp_test v1Pattern tuid.

(** [static getTUIDVersion(tuid)] *)
Definition getTUIDVersion (tuid : jstring) : jstring :=
  if isValidTUID tuid then js "v1" else js "unknown".

Module Parsed.
  (** The object returned by [parseTUID]; a destructured element that is
      missing would be [undefined] ([None]). *)
Record t : Type := {
    timestamp : jsnum;
    machineId : jsnum;
    sequence : jsnum;
    randomString1 : option jstring;
    randomString2 : option jstring
  }.
End Parsed.

(** [static parseTUID(tuid)]; [None] is [null]. *)
Definition parseTUID (tuid : jstring) : option Parsed.t :=
  if negb (isValidTUID tuid) then None
  else
    let parts := split dash tuid in
    let timestampStr := element parts 0 in
    let machineIdStr := element parts 1 in
    let sequenceStr := element parts 2 in
    let randomString1 := element parts 3 in
    let randomString2 := element parts 4 in
    Some {| Parsed.timestamp := parseInt10 timestampStr;
            Parsed.machineId := parseInt10 machineIdStr;
            Parsed.sequence := parseInt10 sequenceStr;
            Parsed.randomString1 := randomString1;
            Parsed.randomString2 := randomString2 |}.

(** [private currentTimestamp()]: the next reading of [Date.now()]. *)
Definition currentTimestamp (clock : Clock) : option (Z * Clock) :=
  match clock with
  | now :: clock' => Some (now, clock')
  | [] => None
  end.

(** [while (timestamp <= this.lastTimestamp) timestamp = this.currentTimestamp();] *)
Fixpoint busyWait (lastTimestamp timestamp : Z) (clock : Clock)
  : option (Z * Clock) :=
  if timestamp <=? lastTimestamp then
    match clock with
    | now :: clock' => busyWait lastTimestamp now clock'
    | [] => None
    end
  else Some (timestamp, clock).

Section Generation.

Variable fraction_toString : Q -> jstring.

  (** The template literal that composes the identifier. *)
Definition template (timestamp : Z) (machineId : jsnum) (sequence : Z)
             (randomString1 randomString2 : jstring) : jstring :=
    Number_toString fraction_toString (of_Z timestamp) ++ [dash]
    ++ Number_toString fraction_toString machineId ++ [dash]
    ++ Number_toString fraction_toString (of_Z sequence) ++ [dash]
    ++ randomString1 ++ [dash] ++ randomString2.

  (** [generateV1()] on the instance [this], with the clock trace and the
      renderings [random1], [random2] of [Math.random().toString(36)] for
      its two draws.  It returns the identifier, the instance after the call
      and the readings left. *)
Definition generateV1 (this : TUIDGenerator) (clock : Clock)
             (random1 random2 : jstring)
    : option (jstring * TUIDGenerator * Clock) :=
    '(timestamp, clock) <- currentTimestamp clock ;;
    '(timestamp, sequence', clock) <-
      (if timestamp =? lastTimestamp this then
         let sequence' := Z.land (ToInt32 (sequence this + 1)) 4095 in
         if sequence' =? 0 then
           '(timestamp, clock) <- busyWait (lastTimestamp this) timestamp clock ;;
           Some (timestamp, sequence', clock)
         else Some (timestamp, sequence', clock)
       else Some (timestamp, 0, clock)) ;;
    let this' := {| sequence := sequence';
                    lastTimestamp := timestamp;
                    machineId := machineId this |} in
    let randomString1 := substring random1 2 6 in
    let randomString2 := substring random2 2 6 in
    Some (template timestamp (machineId this') (sequence this')
                   randomString1 randomString2,
          this', clock).

  (** Successive calls on one instance, one pair of renderings per call.
      Each identifier comes with the instance as the call left it. *)
Fixpoint generateMany (this : TUIDGenerator) (clock : Clock)
           (randoms : list (jstring * jstring))
    : option (list (jstring * TUIDGenerator) * TUIDGenerator * Clock) :=
    match randoms with
    | [] => Some ([], this, clock)
    | (random1, random2) :: randoms' =>
        '(tuid, this', clock') <- generateV1 this clock random1 random2 ;;
        '(rest, final, clock'') <- generateMany this' clock' randoms' ;;
        Some ((tuid, this') :: rest, final, clock'')
    end.

End Generation.

(* ================================================================== *)
(** * The textual format, as the specification words it                 *)
(* ================================================================== *)

Definition decimal_digit (c : code_unit) : Prop := (48 <= c <= 57)%N.

Definition lowercase_letter (c : code_unit) : Prop := (97 <= c <= 122)%N.

Definition uppercase_letter (c : code_unit) : Prop := (65 <= c <= 90)%N.

Definition lowercase_alphanumeric (c : code_unit) : Prop :=
  decimal_digit c \/ lowercase_letter c.

(** Five fields joined by dashes and nothing else: 13 digits, 1 to 4 digits,
    1 to 4 digits, and two segments of exactly 4 lowercase-alphanumeric
    characters. *)
Definition v1_fields (text ts mid sq seg1 seg2 : jstring) : Prop :=
  text = ts ++ dash :: mid ++ dash :: sq ++ dash :: seg1 ++ dash :: seg2
  /\ length ts = 13%nat /\ Forall decimal_digit ts
  /\ (1 <= length mid <= 4)%nat /\ Forall decimal_digit mid
  /\ (1 <= length sq <= 4)%nat /\ Forall decimal_digit sq
  /\ length seg1 = 4%nat /\ Forall lowercase_alphanumeric seg1
  /\ length seg2 = 4%nat /\ Forall lowercase_alphanumeric seg2.

Definition v1_format (text : jstring) : Prop :=
  exists ts mid sq seg1 seg2, v1_fields text ts mid sq seg1 seg2.

(** The value of a digit string in positional notation. *)
Fixpoint decimal_value (ds : jstring) : Z :=
  match ds with
  | [] => 0
  | c :: ds' => (Z.of_N c - 48) * 10 ^ Z.of_nat (length ds') + decimal_value ds'
  end.

(** The timestamp and sequence that a call has put into its identifier:
    the instance fields as the call leaves them. *)
Definition emitted (this : TUIDGenerator) : Z * Z :=
  (lastTimestamp this, sequence this).

(** Timestamp first, then sequence. *)
Definition lex_lt (p q : Z * Z) : Prop :=
  fst p < fst q \/ (fst p = fst q /\ snd p < snd q).

(** An instance that has generated before, on a clock that never goes
    back: no reading to come is below [lastTimestamp], and the sequence is
    a 12-bit value. *)
Definition in_step (this : TUIDGenerator) (clock : Clock) : Prop :=
  Forall (fun reading => lastTimestamp this <= reading) clock
  /\ 0 <= sequence this <= 4095.

(** A rendering [0.d1d2...] of a draw with at least four base-36 digits
    after the point; [ds] are those digits. *)
Definition long_rendering (random ds : jstring) : Prop :=
  random = 48%N :: 46%N :: ds
  /\ (4 <= length ds)%nat
  /\ Forall lowercase_alphanumeric ds.

(** A reading of [Date.now()] at or after the epoch; time values end at
    8.64e15 milliseconds. *)
Definition epoch_reading (reading : Z) : Prop :=
  0 <= reading <= 8640000000000000.

(** The dash-separated field [i] of an identifier, as [parseTUID] cuts it. *)
Definition field (tuid : jstring) (i : nat) : option jstring :=
  element (split dash tuid) i.

(** The order in which strings sort: by code units, a proper prefix first
    (the [<] of the language on two strings). *)
Fixpoint jstring_lt (a b : jstring) : bool :=
  match a, b with
  | _, [] => false
  | [], _ :: _ => true
  | x :: a', y :: b' => (x <? y)%N || ((x =? y)%N && jstring_lt a' b')
  end.

(* ================================================================== *)
(** * The matcher                                                       *)
(* ================================================================== *)

Lemma digit_matches (c : code_unit) :
  atom_matches ClassEscape_d c = true <-> decimal_digit c.
Proof.
  unfold decimal_digit; simpl.
  rewrite andb_true_iff, !N.leb_le. tauto.
Qed.

Lemma lower_alnum_matches (c : code_unit) :
  atom_matches lower_alnum c = true <-> lowercase_alphanumeric c.
Proof.
  unfold lowercase_alphanumeric, decimal_digit, lowercase_letter; simpl.
  rewrite !orb_true_iff, !andb_true_iff, !N.leb_le.
  intuition discriminate.
Qed.

(** A greedy bounded repetition succeeds exactly when some admissible number
    of matching code units can be split off so that the continuation
    succeeds on what is left. *)
Lemma RepeatMatcher_iff (a : Atom) (max min index : nat) (rest : jstring)
      (c : Continuation) :
  (min <= max)%nat ->
  RepeatMatcher a min max index rest c = true <->
  exists pre post,
    rest = pre ++ post
    /\ (min <= length pre <= max)%nat
    /\ Forall (fun ch => atom_matches a ch = true) pre
    /\ c (index + length pre)%nat post = true.
Proof.
  revert min index rest.
  induction max as [|max IH]; intros min index rest Hle.
  - assert (min = 0%nat) by lia. subst min. simpl. split.
    + intros Hc. exists [], rest. simpl. rewrite Nat.add_0_r.
      repeat split; auto.
    + intros (pre & post & -> & Hlen & _ & Hc).
      destruct pre; [|simpl in Hlen; lia].
      simpl in Hc. now rewrite Nat.add_0_r in Hc.
  - assert (Hiter :
      match rest with
      | ch :: rest' =>
          atom_matches a ch
          && RepeatMatcher a (Nat.pred min) max (S index) rest' c
      | [] => false
      end = true <->
      exists ch pre post,
        rest = (ch :: pre) ++ post
        /\ (min <= length (ch :: pre) <= S max)%nat
        /\ Forall (fun ch => atom_matches a ch = true) (ch :: pre)
        /\ c (index + length (ch :: pre))%nat post = true).
    { destruct rest as [|ch rest'].
      - split; [discriminate|]. intros (? & ? & ? & H & _). discriminate H.
      - rewrite andb_true_iff, IH by lia. split.
        + intros (Hch & pre & post & -> & Hlen & Hall & Hc).
          exists ch, pre, post. simpl.
          rewrite Nat.add_succ_r. repeat split; auto; lia.
        + intros (ch' & pre & post & Heq & Hlen & Hall & Hc).
          simpl in Heq. injection Heq as <- ->.
          inversion Hall; subst. split; [assumption|].
          exists pre, post. simpl in Hlen, Hc.
          rewrite Nat.add_succ_r in Hc. repeat split; auto; lia. }
    cbn [RepeatMatcher]. destruct min as [|min'].
    + rewrite orb_true_iff, Hiter. split.
      * intros [(ch & pre & post & H)|Hc].
        -- exists (ch :: pre), post. exact H.
        -- exists [], rest. simpl. rewrite Nat.add_0_r.
           repeat split; auto; lia.
      * intros (pre & post & Heq & Hlen & Hall & Hc).
        destruct pre as [|ch pre].
        -- right. simpl in Heq, Hc. subst.
           now rewrite Nat.add_0_r in Hc.
        -- left. exists ch, pre, post. auto.
    + rewrite Hiter. split.
      * intros (ch & pre & post & H). exists (ch :: pre), post. exact H.
      * intros (pre & post & Heq & Hlen & Hall & Hc).
        destruct pre as [|ch pre]; [simpl in Hlen; lia|].
        exists ch, pre, post. auto.
Qed.

Lemma match_quantified (a : Atom) (min max : nat) (p : Pattern)
      (index : nat) (rest : jstring) (c : Continuation) :
  (min <= max)%nat ->
  match_pattern (TQuantified a min max :: p) index rest c = true <->
  exists pre post,
    rest = pre ++ post
    /\ (min <= length pre <= max)%nat
    /\ Forall (fun ch => atom_matches a ch = true) pre
    /\ match_pattern p (index + length pre)%nat post c = true.
Proof.
  intros Hle. cbn [match_pattern match_term].
  now rewrite RepeatMatcher_iff.
Qed.

Lemma match_character (ch : code_unit) (p : Pattern)
      (index : nat) (rest : jstring) (c : Continuation) :
  match_pattern (TAtom (PatternCharacter ch) :: p) index rest c = true <->
  exists post, rest = ch :: post /\ match_pattern p (S index) post c = true.
Proof.
  cbn [match_pattern match_term]. destruct rest as [|x rest'].
  - split; [discriminate|]. intros (? & H & _). discriminate H.
  - cbn [atom_matches]. rewrite andb_true_iff, N.eqb_eq. split.
    + intros [-> H]. eauto.
    + intros (post & Heq & H). injection Heq as -> ->. auto.
Qed.

Lemma match_end (index : nat) (rest : jstring) :
  match_pattern [AssertEnd] index rest (fun _ _ => true) = true <-> rest = [].
Proof.
  cbn [match_pattern match_term]. destruct rest; split; congruence.
Qed.

(** A pattern that opens with [^] matches at index 0 only. *)
Lemma exec_from_anchored (p : Pattern) (index : nat) (rest : jstring) :
  exec_from (AssertStart :: p) (S index) rest = false.
Proof.
  revert index. induction rest as [|x rest IH]; intros index; simpl; auto.
Qed.

Lemma test_anchored (p : Pattern) (s : jstring) :
  RegExp_test (AssertStart :: p) s = match_pattern p 0 s (fun _ _ => true).
Proof.
  unfold RegExp_test. destruct s as [|x s]; simpl.
  - now rewrite orb_false_r.
  - now rewrite exec_from_anchored, orb_false_r.
Qed.

Lemma Forall_digit_matches (s : jstring) :
  Forall (fun ch => atom_matches ClassEscape_d ch = true) s
  <-> Forall decimal_digit s.
Proof. split; apply Forall_impl; intros c; apply digit_matches. Qed.

Lemma Forall_lower_alnum_matches (s : jstring) :
  Forall (fun ch => atom_matches lower_alnum ch = true) s
  <-> Forall lowercase_alphanumeric s.
Proof. split; apply Forall_impl; intros c; apply lower_alnum_matches. Qed.

(** Checking a literal against a character class by evaluation. *)
Lemma Forall_atom_check (a : Atom) (s : jstring) :
  forallb (atom_matches a) s = true ->
  Forall (fun ch => atom_matches a ch = true) s.
Proof.
  induction s as [|c s IH]; cbn [forallb]; [constructor|].
  intros H. apply andb_true_iff in H. destruct H. constructor; auto.
Qed.

Lemma digits_check (s : jstring) :
  forallb (atom_matches ClassEscape_d) s = true -> Forall decimal_digit s.
Proof. intros H. now apply Forall_digit_matches, Forall_atom_check. Qed.

Lemma lower_alnum_check (s : jstring) :
  forallb (atom_matches lower_alnum) s = true ->
  Forall lowercase_alphanumeric s.
Proof. intros H. now apply Forall_lower_alnum_matches, Forall_atom_check. Qed.

(** The pattern accepts exactly the five-field format. *)
Lemma isValidTUID_iff_format (text : jstring) :
  isValidTUID text = true <-> v1_format text.
Proof.
  unfold isValidTUID, v1Pattern. rewrite test_anchored. split.
  - intros H.
    apply match_quantified in H; [|lia].
    destruct H as (ts & r1 & -> & Hts & Ats & H).
    apply match_character in H. destruct H as (r2 & -> & H).
    apply match_quantified in H; [|lia].
    destruct H as (mid & r3 & -> & Hmid & Amid & H).
    apply match_character in H. destruct H as (r4 & -> & H).
    apply match_quantified in H; [|lia].
    destruct H as (sq & r5 & -> & Hsq & Asq & H).
    apply match_character in H. destruct H as (r6 & -> & H).
    apply match_quantified in H; [|lia].
    destruct H as (seg1 & r7 & -> & Hseg1 & Aseg1 & H).
    apply match_character in H. destruct H as (r8 & -> & H).
    apply match_quantified in H; [|lia].
    destruct H as (seg2 & r9 & -> & Hseg2 & Aseg2 & H).
    apply match_end in H. subst r9. rewrite app_nil_r.
    exists ts, mid, sq, seg1, seg2. unfold v1_fields.
    rewrite Forall_digit_matches in Ats, Amid, Asq.
    rewrite Forall_lower_alnum_matches in Aseg1, Aseg2.
    repeat split; try assumption; lia.
  - intros (ts & mid & sq & seg1 & seg2 & -> & Hts & Ats & Hmid & Amid
            & Hsq & Asq & Hseg1 & Aseg1 & Hseg2 & Aseg2).
    rewrite <- Forall_digit_matches in Ats, Amid, Asq.
    rewrite <- Forall_lower_alnum_matches in Aseg1, Aseg2.
    apply match_quantified; [lia|].
    exists ts; eexists; repeat split; [lia|lia|assumption|].
    apply match_character; eexists; split; [reflexivity|].
    apply match_quantified; [lia|].
    exists mid; eexists; repeat split; [lia|lia|assumption|].
    apply match_character; eexists; split; [reflexivity|].
    apply match_quantified; [lia|].
    exists sq; eexists; repeat split; [lia|lia|assumption|].
    apply match_character; eexists; split; [reflexivity|].
    apply match_quantified; [lia|].
    exists seg1; eexists; repeat split; [lia|lia|assumption|].
    apply match_character; eexists; split; [reflexivity|].
    apply match_quantified; [lia|].
    exists seg2, []. rewrite app_nil_r.
    repeat split; try assumption; lia.
Qed.

(* ================================================================== *)
(** * Decimal rendering and reading                                     *)
(* ================================================================== *)

Lemma decimal_digits_fuel_acc (fuel : nat) (n : N) (acc : jstring) :
  decimal_digits_fuel fuel n acc = decimal_digits_fuel fuel n [] ++ acc.
Proof.
  revert n acc. induction fuel as [|fuel IH]; intros n acc; simpl; auto.
  destruct (n <? 10)%N; auto.
  rewrite IH, (IH _ [_]), <- app_assoc. reflexivity.
Qed.

Lemma decimal_digits_fuel_enough (f1 f2 : nat) (n : N) (acc : jstring) :
  (0 < f1)%nat -> (n < 2 ^ N.of_nat f1)%N ->
  (0 < f2)%nat -> (n < 2 ^ N.of_nat f2)%N ->
  decimal_digits_fuel f1 n acc = decimal_digits_fuel f2 n acc.
Proof.
  revert f2 n acc.
  induction f1 as [|f1 IH]; intros f2 n acc H1 B1 H2 B2; [lia|].
  destruct f2 as [|f2]; [lia|]. simpl.
  destruct (n <? 10)%N eqn:Hn; auto.
  apply N.ltb_ge in Hn.
  assert (Hhalf : forall f, (n < 2 ^ N.of_nat (S f))%N ->
                            (0 < f)%nat /\ (n / 10 < 2 ^ N.of_nat f)%N).
  { intros f Hf.
    rewrite Nat2N.inj_succ, N.pow_succ_r' in Hf.
    assert (Hq : (n / 10 < 2 ^ N.of_nat f)%N)
      by (apply N.Div0.div_lt_upper_bound; lia).
    split; auto.
    destruct f; [|lia]. simpl in Hf. lia. }
  destruct (Hhalf _ B1), (Hhalf _ B2). apply IH; auto.
Qed.

(** The digits of [n]: one digit below ten, otherwise the digits of the
    quotient followed by the last digit. *)
Lemma decimal_digits_eq (n : N) :
  decimal_digits n =
  if (n <? 10)%N then [digit_unit n]
  else decimal_digits (n / 10) ++ [digit_unit (n mod 10)].
Proof.
  unfold decimal_digits at 1. cbn [decimal_digits_fuel].
  destruct (n <? 10)%N eqn:Hn.
  - apply N.ltb_lt in Hn. now rewrite N.mod_small.
  - apply N.ltb_ge in Hn.
    rewrite decimal_digits_fuel_acc. f_equal.
    unfold decimal_digits.
    assert (Hlog : (n < 2 ^ N.succ (N.log2 n))%N)
      by (apply N.log2_spec; lia).
    assert (H10 : (n / 10 < 2 ^ N.log2 n)%N).
    { apply N.Div0.div_lt_upper_bound.
      rewrite N.pow_succ_r' in Hlog. lia. }
    assert (Hpos : (0 < N.log2 n)%N).
    { destruct (N.log2 n) eqn:E; [|lia]. simpl in Hlog. lia. }
    apply decimal_digits_fuel_enough.
    + lia.
    + now rewrite N2Nat.id.
    + lia.
    + rewrite Nat2N.inj_succ, N2Nat.id.
      destruct (N.eq_dec (n / 10) 0) as [E|E].
      * rewrite E. apply N.neq_0_lt_0, N.pow_nonzero. lia.
      * apply N.log2_spec. now apply N.neq_0_lt_0.
Qed.

Lemma decimal_digits_are_digits (n : N) :
  Forall decimal_digit (decimal_digits n).
Proof.
  induction n as [n IH] using (well_founded_induction N.lt_wf_0).
  rewrite decimal_digits_eq. destruct (n <? 10)%N eqn:Hn.
  - apply N.ltb_lt in Hn. constructor; [|constructor].
    unfold decimal_digit, digit_unit. lia.
  - apply N.ltb_ge in Hn. apply Forall_app. split.
    + apply IH. apply N.div_lt; lia.
    + constructor; [|constructor].
      unfold decimal_digit, digit_unit.
      pose proof (N.mod_lt n 10). lia.
Qed.

Lemma digits_value_snoc (ds : jstring) (c : code_unit) :
  digits_value (ds ++ [c]) = (10 * digits_value ds + (c - 48))%N.
Proof. unfold digits_value. now rewrite fold_left_app. Qed.

(** Reading the rendering of [n] gives [n] back. *)
Lemma digits_value_decimal_digits (n : N) :
  digits_value (decimal_digits n) = n.
Proof.
  induction n as [n IH] using (well_founded_induction N.lt_wf_0).
  rewrite decimal_digits_eq. destruct (n <? 10)%N eqn:Hn.
  - unfold digits_value, digit_unit. cbn [fold_left]. lia.
  - apply N.ltb_ge in Hn.
    rewrite digits_value_snoc, IH by (apply N.div_lt; lia).
    unfold digit_unit. pose proof (N.div_mod n 10). lia.
Qed.

Lemma decimal_digits_nonempty (n : N) : (1 <= length (decimal_digits n))%nat.
Proof.
  rewrite decimal_digits_eq. destruct (n <? 10)%N; simpl; [lia|].
  rewrite length_app. simpl. lia.
Qed.

(** A number with [k+1] decimal digits is rendered on [k+1] code units. *)
Lemma decimal_digits_length (k : nat) (n : N) :
  (n < 10 ^ N.of_nat (S k))%N ->
  (k = 0%nat \/ 10 ^ N.of_nat k <= n)%N ->
  length (decimal_digits n) = S k.
Proof.
  revert n. induction k as [|k IH]; intros n Hlt Hge;
    rewrite decimal_digits_eq.
  - simpl in Hlt. destruct (n <? 10)%N eqn:Hn; auto.
    apply N.ltb_ge in Hn. lia.
  - destruct Hge as [Hge|Hge]; [discriminate|].
    rewrite !Nat2N.inj_succ, !N.pow_succ_r' in Hlt.
    rewrite Nat2N.inj_succ, N.pow_succ_r' in Hge.
    assert (Hp : (0 < 10 ^ N.of_nat k)%N)
      by (apply N.neq_0_lt_0, N.pow_nonzero; lia).
    destruct (n <? 10)%N eqn:Hn.
    + apply N.ltb_lt in Hn. lia.
    + apply N.ltb_ge in Hn.
      rewrite length_app, IH; [simpl; lia| |].
      * rewrite Nat2N.inj_succ, N.pow_succ_r'.
        apply N.Div0.div_lt_upper_bound. lia.
      * right. apply N.div_le_lower_bound; lia.
Qed.

Lemma decimal_digits_length_le (k : nat) (n : N) :
  (n < 10 ^ N.of_nat (S k))%N ->
  (length (decimal_digits n) <= S k)%nat.
Proof.
  revert n. induction k as [|k IH]; intros n Hlt;
    rewrite decimal_digits_eq.
  - simpl in Hlt. destruct (n <? 10)%N eqn:Hn; simpl; [lia|].
    apply N.ltb_ge in Hn. lia.
  - destruct (n <? 10)%N eqn:Hn; [simpl; lia|].
    rewrite length_app.
    assert (length (decimal_digits (n / 10)) <= S k)%nat; [|simpl; lia].
    apply IH. rewrite !Nat2N.inj_succ, !N.pow_succ_r' in Hlt.
    rewrite Nat2N.inj_succ, N.pow_succ_r'.
    apply N.Div0.div_lt_upper_bound; lia.
Qed.

Lemma fold_digits_value (ds : jstring) (acc : N) :
  Forall decimal_digit ds ->
  Z.of_N (fold_left (fun acc c => (10 * acc + (c - 48))%N) ds acc)
  = Z.of_N acc * 10 ^ Z.of_nat (length ds) + decimal_value ds.
Proof.
  revert acc. induction ds as [|c ds IH]; intros acc Hall.
  - simpl. lia.
  - inversion Hall as [|? ? Hc Hds]; subst.
    cbn [fold_left decimal_value length]. rewrite IH by assumption.
    rewrite Nat2Z.inj_succ, Z.pow_succ_r by lia.
    unfold decimal_digit in Hc.
    replace (Z.of_N (10 * acc + (c - 48))) with (10 * Z.of_N acc + (Z.of_N c - 48))
      by lia.
    ring.
Qed.

Lemma digits_value_decimal_value (ds : jstring) :
  Forall decimal_digit ds -> Z.of_N (digits_value ds) = decimal_value ds.
Proof.
  intros Hall. unfold digits_value. rewrite fold_digits_value by assumption.
  simpl. reflexivity.
Qed.

Lemma decimal_value_bounds (ds : jstring) :
  Forall decimal_digit ds ->
  0 <= decimal_value ds < 10 ^ Z.of_nat (length ds).
Proof.
  induction 1 as [|c ds Hc Hds IH]; [simpl; lia|].
  cbn [decimal_value length]. rewrite Nat2Z.inj_succ, Z.pow_succ_r by lia.
  unfold decimal_digit in Hc.
  assert (0 < 10 ^ Z.of_nat (length ds)) by (apply Z.pow_pos_nonneg; lia).
  nia.
Qed.

Lemma nearest_double_exact (n : N) :
  (n < 2 ^ 53)%N -> nearest_double n = of_Z (Z.of_N n).
Proof.
  intros Hn. unfold nearest_double.
  assert (Hsize : (N.size n <= 53)%N).
  { destruct (N.eq_dec n 0) as [->|Hnz]; [simpl; lia|].
    rewrite N.size_log2 by assumption.
    apply N.le_succ_l, N.log2_lt_pow2; lia. }
  apply N.leb_le in Hsize. now rewrite Hsize.
Qed.

Lemma digit_not_white_space (c : code_unit) :
  decimal_digit c -> is_StrWhiteSpaceChar c = false.
Proof.
  unfold decimal_digit, is_StrWhiteSpaceChar. intros Hc. cbn [existsb].
  repeat match goal with
         | |- context [(c =? ?k)%N] =>
             replace (c =? k)%N with false by (symmetry; apply N.eqb_neq; lia)
         end.
  reflexivity.
Qed.

Lemma digit_prefix_digits (ds : jstring) :
  Forall decimal_digit ds -> digit_prefix ds = ds.
Proof.
  induction 1 as [|c ds Hc Hds IH]; simpl; auto.
  unfold is_decimal_digit_unit. unfold decimal_digit in Hc.
  replace ((48 <=? c)%N && (c <=? 57)%N) with true; [now rewrite IH|].
  symmetry. apply andb_true_iff. rewrite !N.leb_le. lia.
Qed.

(** [parseInt] of a non-empty string of at most 15 digits is its value. *)
Lemma parseInt10_digits (ds : jstring) :
  Forall decimal_digit ds ->
  (1 <= length ds <= 15)%nat ->
  parseInt10 (Some ds) = of_Z (decimal_value ds).
Proof.
  intros Hall Hlen. unfold parseInt10, ToString.
  destruct ds as [|c ds']; [simpl in Hlen; lia|].
  pose proof Hall as Hall'. inversion Hall' as [|? ? Hc Hds]; subst.
  cbn [trim_start]. rewrite digit_not_white_space by assumption.
  unfold decimal_digit in Hc.
  replace (c =? 45)%N with false by (symmetry; apply N.eqb_neq; lia).
  replace (c =? 43)%N with false by (symmetry; apply N.eqb_neq; lia).
  rewrite digit_prefix_digits by assumption.
  rewrite nearest_double_exact.
  - now rewrite digits_value_decimal_value.
  - pose proof (decimal_value_bounds _ Hall) as Hb.
    rewrite <- digits_value_decimal_value in Hb by assumption.
    assert (10 ^ Z.of_nat (length (c :: ds')) <= 10 ^ 15)
      by (apply Z.pow_le_mono_r; lia).
    assert (Z.of_N (digits_value (c :: ds')) < Z.of_N (2 ^ 53)); [|lia].
    change (Z.of_N (2 ^ 53)) with 9007199254740992.
    change (10 ^ 15) with 1000000000000000 in *. lia.
Qed.

(* ================================================================== *)
(** * Splitting on dashes                                               *)
(* ================================================================== *)

Lemma split_nonempty (sep : code_unit) (s : jstring) : split sep s <> [].
Proof.
  destruct s as [|c s]; simpl; [discriminate|].
  destruct (c =? sep)%N; [discriminate|].
  destruct (split sep s); discriminate.
Qed.

Lemma split_without (sep : code_unit) (s : jstring) :
  ~ In sep s -> split sep s = [s].
Proof.
  induction s as [|c s IH]; intros Hnot; simpl; auto.
  destruct (c =? sep)%N eqn:E.
  - apply N.eqb_eq in E. subst. exfalso. apply Hnot. now left.
  - rewrite IH; auto. intros Hin. apply Hnot. now right.
Qed.

Lemma split_app (sep : code_unit) (a rest : jstring) :
  ~ In sep a -> split sep (a ++ sep :: rest) = a :: split sep rest.
Proof.
  induction a as [|c a IH]; intros Hnot; simpl.
  - now rewrite N.eqb_refl.
  - destruct (c =? sep)%N eqn:E.
    + apply N.eqb_eq in E. subst. exfalso. apply Hnot. now left.
    + rewrite IH; auto. intros Hin. apply Hnot. now right.
Qed.

Lemma digits_without_dash (s : jstring) :
  Forall decimal_digit s -> ~ In dash s.
Proof.
  intros Hall Hin. rewrite Forall_forall in Hall.
  apply Hall in Hin. unfold decimal_digit, dash in Hin. lia.
Qed.

Lemma lower_alnum_without_dash (s : jstring) :
  Forall lowercase_alphanumeric s -> ~ In dash s.
Proof.
  intros Hall Hin. rewrite Forall_forall in Hall.
  apply Hall in Hin.
  unfold lowercase_alphanumeric, decimal_digit, lowercase_letter, dash in Hin.
  lia.
Qed.

(** Splitting a well-formed identifier on dashes gives back its fields. *)
Lemma split_v1_fields (text ts mid sq seg1 seg2 : jstring) :
  v1_fields text ts mid sq seg1 seg2 ->
  split dash text = [ts; mid; sq; seg1; seg2].
Proof.
  intros (-> & _ & Ats & _ & Amid & _ & Asq & _ & Aseg1 & _ & Aseg2).
  rewrite !split_app, split_without;
    auto using digits_without_dash, lower_alnum_without_dash.
Qed.

Lemma count_dash_v1_fields (text ts mid sq seg1 seg2 : jstring) :
  v1_fields text ts mid sq seg1 seg2 ->
  count_occ N.eq_dec text dash = 4%nat.
Proof.
  intros (-> & _ & Ats & _ & Amid & _ & Asq & _ & Aseg1 & _ & Aseg2).
  apply digits_without_dash in Ats, Amid, Asq.
  apply lower_alnum_without_dash in Aseg1, Aseg2.
  rewrite (count_occ_not_In N.eq_dec) in Ats, Amid, Asq, Aseg1, Aseg2.
  repeat (rewrite count_occ_app || rewrite count_occ_cons_eq by reflexivity).
  lia.
Qed.

Lemma no_uppercase_in_v1_format (text : jstring) (c : code_unit) :
  v1_format text -> In c text -> ~ uppercase_letter c.
Proof.
  intros (ts & mid & sq & seg1 & seg2 & -> & _ & Ats & _ & Amid & _ & Asq
          & _ & Aseg1 & _ & Aseg2) Hin Hup.
  rewrite Forall_forall in Ats, Amid, Asq, Aseg1, Aseg2.
  unfold uppercase_letter in Hup.
  assert (Hdash : c <> dash) by (unfold dash; lia).
  assert (Hd : ~ decimal_digit c) by (unfold decimal_digit; lia).
  assert (Ha : ~ lowercase_alphanumeric c)
    by (unfold lowercase_alphanumeric, decimal_digit, lowercase_letter; lia).
  repeat (apply in_app_or in Hin; destruct Hin as [Hin|Hin];
          [auto; fail | destruct Hin as [Hin|Hin]; [congruence|]]);
    auto.
Qed.

(** A well-formed identifier cannot sit inside a longer well-formed one. *)
Lemma v1_format_no_surroundings (pre text post : jstring) :
  v1_format text -> v1_format (pre ++ text ++ post) ->
  pre = [] /\ post = [].
Proof.
  intros (ts & mid & sq & seg1 & seg2 & Hin)
         (ts' & mid' & sq' & seg1' & seg2' & Hout).
  pose proof (count_dash_v1_fields _ _ _ _ _ _ Hin) as Cin.
  pose proof (count_dash_v1_fields _ _ _ _ _ _ Hout) as Cout.
  rewrite !count_occ_app in Cout.
  assert (Hpre : ~ In dash pre)
    by (apply (count_occ_not_In N.eq_dec); lia).
  assert (Hpost : ~ In dash post)
    by (apply (count_occ_not_In N.eq_dec); lia).
  pose proof (split_v1_fields _ _ _ _ _ _ Hout) as Sout.
  destruct Hin as (-> & Lts & Ats & _ & Amid & _ & Asq & _ & Aseg1
                   & Lseg2 & Aseg2).
  destruct Hout as (_ & Lts' & _ & _ & _ & _ & _ & _ & _ & Lseg2' & _).
  apply digits_without_dash in Ats, Amid, Asq.
  apply lower_alnum_without_dash in Aseg1, Aseg2.
  replace (pre ++ (ts ++ dash :: mid ++ dash :: sq ++ dash :: seg1
                      ++ dash :: seg2) ++ post)
    with ((pre ++ ts) ++ dash :: mid ++ dash :: sq ++ dash :: seg1
                      ++ dash :: (seg2 ++ post)) in Sout
    by (repeat (rewrite <- app_assoc; cbn [app]); reflexivity).
  rewrite !split_app, split_without in Sout; auto;
    try (intros Hx; apply in_app_or in Hx; tauto).
  injection Sout as E1 _ _ _ E5. subst ts' seg2'.
  rewrite length_app in Lts', Lseg2'.
  split.
  - destruct pre; [reflexivity|simpl in Lts'; lia].
  - destruct post; [reflexivity|simpl in Lseg2'; lia].
Qed.

(** The fields of a well-formed identifier, as [parseTUID] returns them. *)
Lemma parseTUID_fields (text ts mid sq seg1 seg2 : jstring) :
  v1_fields text ts mid sq seg1 seg2 ->
  parseTUID text =
  Some {| Parsed.timestamp := of_Z (decimal_value ts);
          Parsed.machineId := of_Z (decimal_value mid);
          Parsed.sequence := of_Z (decimal_value sq);
          Parsed.randomString1 := Some seg1;
          Parsed.randomString2 := Some seg2 |}.
Proof.
  intros Hf. unfold parseTUID.
  assert (Hvalid : isValidTUID text = true)
    by (apply isValidTUID_iff_format; red; eauto 6).
  rewrite Hvalid, (split_v1_fields _ _ _ _ _ _ Hf). cbn [negb element nth_error].
  destruct Hf as (_ & Lts & Ats & Lmid & Amid & Lsq & Asq & _).
  rewrite !parseInt10_digits by (auto; lia). reflexivity.
Qed.

(* ================================================================== *)
(** * Generation: one call                                              *)
(* ================================================================== *)

(** The 12-bit mask computes the successor modulo 4096. *)
Lemma sequence_mask (s : Z) :
  Z.land (ToInt32 (s + 1)) 4095 = (s + 1) mod 4096.
Proof.
  change 4095 with (Z.ones 12). rewrite Z.land_ones by lia.
  change (2 ^ 12) with 4096. unfold ToInt32.
  change (2 ^ 31) with 2147483648. change (2 ^ 32) with 4294967296. lia.
Qed.

Section GenerationFacts.

(** The rendering of non-integral numbers; the facts hold whatever it is. *)
Variable f : Q -> jstring.

(** A reading that differs from [lastTimestamp]: the sequence restarts. *)
Lemma generateV1_new_timestamp (this : TUIDGenerator) (now : Z) (clock : Clock)
      (random1 random2 : jstring) :
  now <> lastTimestamp this ->
  generateV1 f this (now :: clock) random1 random2 =
  Some (template f now (machineId this) 0
                 (substring random1 2 6) (substring random2 2 6),
        {| sequence := 0; lastTimestamp := now; machineId := machineId this |},
        clock).
Proof.
  intros Hne. unfold generateV1. cbn [currentTimestamp].
  apply Z.eqb_neq in Hne. rewrite Hne. reflexivity.
Qed.

(** The same reading again, the sequence not exhausted. *)
Lemma generateV1_same_timestamp (this : TUIDGenerator) (clock : Clock)
      (random1 random2 : jstring) :
  (sequence this + 1) mod 4096 <> 0 ->
  generateV1 f this (lastTimestamp this :: clock) random1 random2 =
  Some (template f (lastTimestamp this) (machineId this)
                 ((sequence this + 1) mod 4096)
                 (substring random1 2 6) (substring random2 2 6),
        {| sequence := (sequence this + 1) mod 4096;
           lastTimestamp := lastTimestamp this;
           machineId := machineId this |},
        clock).
Proof.
  intros Hne. unfold generateV1. cbn [currentTimestamp].
  rewrite Z.eqb_refl, sequence_mask.
  apply Z.eqb_neq in Hne. rewrite Hne. reflexivity.
Qed.

(** The same reading again, the sequence exhausted: the call spins. *)
Lemma generateV1_exhausted (this : TUIDGenerator) (clock : Clock)
      (random1 random2 : jstring) :
  (sequence this + 1) mod 4096 = 0 ->
  generateV1 f this (lastTimestamp this :: clock) random1 random2 =
  '(timestamp, clock') <-
     busyWait (lastTimestamp this) (lastTimestamp this) clock ;;
  Some (template f timestamp (machineId this) 0
                 (substring random1 2 6) (substring random2 2 6),
        {| sequence := 0; lastTimestamp := timestamp;
           machineId := machineId this |},
        clock').
Proof.
  intros He. unfold generateV1. cbn [currentTimestamp].
  rewrite Z.eqb_refl, sequence_mask, He. cbn [Z.eqb].
  destruct (busyWait _ _ clock) as [[timestamp clock']|]; reflexivity.
Qed.

(** What the spin loop returns: the first reading beyond [lastTimestamp]. *)
Lemma busyWait_skips (last timestamp : Z) (clock : Clock)
      (timestamp' : Z) (clock' : Clock) :
  timestamp <= last ->
  busyWait last timestamp clock = Some (timestamp', clock') ->
  exists skipped,
    clock = skipped ++ timestamp' :: clock'
    /\ Forall (fun reading => reading <= last) skipped
    /\ last < timestamp'.
Proof.
  revert timestamp. induction clock as [|now clock IH]; intros timestamp Hle.
  - simpl. apply Z.leb_le in Hle. rewrite Hle. discriminate.
  - cbn [busyWait]. pose proof Hle as Hle'.
    apply Z.leb_le in Hle'. rewrite Hle'.
    destruct (Z_le_gt_dec now last) as [Hnow|Hnow].
    + intros Hw. destruct (IH now Hnow Hw) as (skipped & -> & Hall & Hlt).
      exists (now :: skipped). repeat split; auto.
    + destruct clock as [|now' clock]; cbn [busyWait];
        (replace (now <=? last) with false by (symmetry; apply Z.leb_gt; lia));
        intros [= <- <-]; exists []; repeat split; auto; lia.
Qed.

(** The loop finds the first later reading whenever there is one. *)
Lemma busyWait_finds (last timestamp : Z) (skipped : list Z) (later : Z)
      (clock : Clock) :
  timestamp <= last ->
  Forall (fun reading => reading <= last) skipped ->
  last < later ->
  busyWait last timestamp (skipped ++ later :: clock) = Some (later, clock).
Proof.
  intros Hle Hall Hlt. revert timestamp Hle.
  induction Hall as [|now skipped Hnow Hall IH]; intros timestamp Hle.
  - cbn [app busyWait]. apply Z.leb_le in Hle. rewrite Hle.
    destruct clock; cbn [busyWait];
      (replace (later <=? last) with false by (symmetry; apply Z.leb_gt; lia));
      reflexivity.
  - cbn [app busyWait]. apply Z.leb_le in Hle. rewrite Hle. now apply IH.
Qed.

End GenerationFacts.

(* ================================================================== *)
(** * Generation: successive calls on a clock that never goes back      *)
(* ================================================================== *)

Lemma lex_lt_irrefl (p : Z * Z) : ~ lex_lt p p.
Proof. unfold lex_lt. lia. Qed.

Lemma lex_lt_trans (p q r : Z * Z) : lex_lt p q -> lex_lt q r -> lex_lt p r.
Proof. unfold lex_lt. lia. Qed.

Lemma StronglySorted_lex_lt_NoDup (l : list (Z * Z)) :
  StronglySorted lex_lt l -> NoDup l.
Proof.
  induction 1 as [|p l Hs IH Hall]; constructor; auto.
  intros Hin. rewrite Forall_forall in Hall.
  exact (lex_lt_irrefl p (Hall p Hin)).
Qed.

Lemma StronglySorted_app_inv_r (A : Type) (R : A -> A -> Prop)
      (l1 l2 : list A) :
  StronglySorted R (l1 ++ l2) -> StronglySorted R l2.
Proof.
  induction l1 as [|x l1 IH]; simpl; auto.
  intros Hs. apply IH. now inversion Hs.
Qed.

Section Uniqueness.

Variable f : Q -> jstring.

(** One call on a sorted trace: the trace left is sorted and not below the
    new [lastTimestamp], the sequence is a 12-bit value, and the pair put
    into the identifier is beyond the previous one. *)
Lemma generateV1_step (this : TUIDGenerator) (clock : Clock)
      (random1 random2 tuid : jstring) (this' : TUIDGenerator)
      (clock' : Clock) :
  StronglySorted Z.le clock ->
  generateV1 f this clock random1 random2 = Some (tuid, this', clock') ->
  StronglySorted Z.le clock'
  /\ in_step this' clock'
  /\ machineId this' = machineId this
  /\ (in_step this clock -> lex_lt (emitted this) (emitted this')).
Proof.
  intros Hsorted Hgen.
  destruct clock as [|now clock]; [discriminate|].
  pose proof Hsorted as Hs. inversion Hs as [|? ? Htail Hhead]; subst.
  destruct (Z.eq_dec now (lastTimestamp this)) as [->|Hne].
  - destruct (Z.eq_dec ((sequence this + 1) mod 4096) 0) as [Hz|Hnz].
    + rewrite generateV1_exhausted in Hgen by assumption.
      destruct (busyWait _ _ clock) as [[timestamp rest]|] eqn:Hw;
        [|discriminate].
      injection Hgen as _ <- <-.
      apply busyWait_skips in Hw; [|lia].
      destruct Hw as (skipped & -> & Hskipped & Hlater).
      apply StronglySorted_app_inv_r in Htail.
      inversion Htail; subst.
      unfold in_step, emitted, lex_lt;
      cbn [fst snd lastTimestamp sequence machineId].
      split; [assumption|]. split; [split; [assumption|lia]|].
      split; [reflexivity|]. intros _. lia.
    + rewrite generateV1_same_timestamp in Hgen by assumption.
      injection Hgen as _ <- <-.
      unfold in_step, emitted, lex_lt;
      cbn [fst snd lastTimestamp sequence machineId].
      split; [assumption|]. split; [split; [assumption|lia]|].
      split; [reflexivity|]. intros [_ Hseq]. right. lia.
  - rewrite generateV1_new_timestamp in Hgen by assumption.
    injection Hgen as _ <- <-.
    unfold in_step, emitted, lex_lt;
      cbn [fst snd lastTimestamp sequence machineId].
    split; [assumption|]. split; [split; [assumption|lia]|].
    split; [reflexivity|]. intros [Hall _].
    inversion Hall; subst. left. lia.
Qed.

Lemma generateMany_length (randoms : list (jstring * jstring))
      (this : TUIDGenerator) (clock : Clock)
      (out : list (jstring * TUIDGenerator)) (final : TUIDGenerator)
      (clock' : Clock) :
  generateMany f this clock randoms = Some (out, final, clock') ->
  length out = length randoms.
Proof.
  revert this clock out. induction randoms as [|[r1 r2] randoms IH];
    intros this clock out; cbn [generateMany].
  - now intros [= <- _ _].
  - destruct (generateV1 f this clock r1 r2) as [[[tuid this1] clock1]|];
      [|discriminate].
    destruct (generateMany f this1 clock1 randoms)
      as [[[rest final'] clock2]|] eqn:Hrest; [|discriminate].
    intros [= <- <- <-]. simpl. f_equal. eapply IH, Hrest.
Qed.

(** Every identifier is the template filled with the instance's machine
    identifier and the pair the call left in the instance. *)
Lemma generateMany_rendered (randoms : list (jstring * jstring))
      (this : TUIDGenerator) (clock : Clock)
      (out : list (jstring * TUIDGenerator)) (final : TUIDGenerator)
      (clock' : Clock) :
  generateMany f this clock randoms = Some (out, final, clock') ->
  Forall (fun o => exists seg1 seg2,
              fst o = template f (lastTimestamp (snd o)) (machineId this)
                               (sequence (snd o)) seg1 seg2) out.
Proof.
  revert this clock out. induction randoms as [|[r1 r2] randoms IH];
    intros this clock out; cbn [generateMany].
  - intros [= <- _ _]. constructor.
  - destruct (generateV1 f this clock r1 r2)
      as [[[tuid this1] clock1]|] eqn:Hgen; [|discriminate].
    destruct (generateMany f this1 clock1 randoms)
      as [[[rest final'] clock2]|] eqn:Hrest; [|discriminate].
    intros [= <- <- <-].
    assert (Hm : machineId this1 = machineId this /\
                 exists seg1 seg2,
                   tuid = template f (lastTimestamp this1) (machineId this)
                                   (sequence this1) seg1 seg2).
    { unfold generateV1 in Hgen.
      destruct (currentTimestamp clock) as [[t c]|]; [|discriminate].
      destruct (if t =? lastTimestamp this then _ else _)
        as [[[t' s'] c']|]; [|discriminate].
      injection Hgen as <- <- _.
      cbn [lastTimestamp sequence machineId]. eauto. }
    destruct Hm as [Hm Htuid]. constructor; [exact Htuid|].
    rewrite <- Hm. eapply IH, Hrest.
Qed.

(** From an instance in step with the clock, the pairs only go up. *)
Lemma generateMany_increasing (randoms : list (jstring * jstring))
      (this : TUIDGenerator) (clock : Clock)
      (out : list (jstring * TUIDGenerator)) (final : TUIDGenerator)
      (clock' : Clock) :
  StronglySorted Z.le clock ->
  in_step this clock ->
  generateMany f this clock randoms = Some (out, final, clock') ->
  StronglySorted lex_lt (emitted this :: map (fun o => emitted (snd o)) out).
Proof.
  revert this clock out. induction randoms as [|[r1 r2] randoms IH];
    intros this clock out Hsorted Hstep; cbn [generateMany].
  - intros [= <- _ _]. simpl. repeat constructor.
  - destruct (generateV1 f this clock r1 r2)
      as [[[tuid this1] clock1]|] eqn:Hgen; [|discriminate].
    destruct (generateMany f this1 clock1 randoms)
      as [[[rest final'] clock2]|] eqn:Hrest; [|discriminate].
    intros [= <- <- <-].
    destruct (generateV1_step _ _ _ _ _ _ _ Hsorted Hgen)
      as (Hsorted1 & Hstep1 & _ & Hlt).
    specialize (Hlt Hstep).
    pose proof (IH _ _ _ Hsorted1 Hstep1 Hrest) as Hinc.
    cbn [map snd]. constructor; [exact Hinc|].
    inversion Hinc as [|? ? _ Hall]; subst.
    constructor; [exact Hlt|].
    eapply Forall_impl; [|exact Hall].
    intros q. now apply lex_lt_trans.
Qed.

(** From any instance: the first call puts it in step. *)
Lemma generateMany_sorted (randoms : list (jstring * jstring))
      (this : TUIDGenerator) (clock : Clock)
      (out : list (jstring * TUIDGenerator)) (final : TUIDGenerator)
      (clock' : Clock) :
  StronglySorted Z.le clock ->
  generateMany f this clock randoms = Some (out, final, clock') ->
  StronglySorted lex_lt (map (fun o => emitted (snd o)) out).
Proof.
  intros Hsorted. destruct randoms as [|[r1 r2] randoms]; cbn [generateMany].
  - intros [= <- _ _]. constructor.
  - destruct (generateV1 f this clock r1 r2)
      as [[[tuid this1] clock1]|] eqn:Hgen; [|discriminate].
    destruct (generateMany f this1 clock1 randoms)
      as [[[rest final'] clock2]|] eqn:Hrest; [|discriminate].
    intros [= <- <- <-].
    destruct (generateV1_step _ _ _ _ _ _ _ Hsorted Hgen)
      as (Hsorted1 & Hstep1 & _).
    exact (generateMany_increasing _ _ _ _ _ _ Hsorted1 Hstep1 Hrest).
Qed.

End Uniqueness.

(* ================================================================== *)
(** * Generation: the identifier and its round trip                     *)
(* ================================================================== *)

Lemma Number_toString_of_Z (f : Q -> jstring) (z : Z) :
  0 <= z < 10 ^ 21 ->
  Number_toString f (of_Z z) = decimal_digits (Z.to_N z).
Proof.
  intros Hz. unfold Number_toString, of_Z, is_integer, integer_value.
  cbn [inject_Z Qnum Qden]. rewrite Z.mod_1_r, Z.div_1_r. cbn [Z.eqb andb].
  replace (Z.abs z <? 10 ^ 21) with true by (symmetry; apply Z.ltb_lt; lia).
  destruct z; try reflexivity. lia.
Qed.

Lemma decimal_value_decimal_digits (n : N) :
  decimal_value (decimal_digits n) = Z.of_N n.
Proof.
  rewrite <- digits_value_decimal_value by apply decimal_digits_are_digits.
  now rewrite digits_value_decimal_digits.
Qed.

(** [substring(2, 6)] of a long rendering: its first four digits. *)
Lemma substring_long_rendering (random ds : jstring) :
  long_rendering random ds ->
  substring random 2 6 = firstn 4 ds
  /\ length (firstn 4 ds) = 4%nat
  /\ Forall lowercase_alphanumeric (firstn 4 ds).
Proof.
  intros (-> & Hlen & Hall). split; [|split].
  - unfold substring. cbn [length].
    replace (Nat.min 2 (S (S (length ds)))) with 2%nat by lia.
    replace (Nat.min 6 (S (S (length ds)))) with 6%nat by lia.
    reflexivity.
  - rewrite length_firstn. lia.
  - rewrite <- (firstn_skipn 4 ds) in Hall. now apply Forall_app in Hall.
Qed.

(** What a call that returns has done, whichever branch it took. *)
Lemma generateV1_result (f : Q -> jstring) (this : TUIDGenerator)
      (clock : Clock) (random1 random2 tuid : jstring)
      (this' : TUIDGenerator) (clock' : Clock) :
  generateV1 f this clock random1 random2 = Some (tuid, this', clock') ->
  tuid = template f (lastTimestamp this') (machineId this) (sequence this')
                  (substring random1 2 6) (substring random2 2 6)
  /\ machineId this' = machineId this
  /\ 0 <= sequence this' <= 4095.
Proof.
  intros Hgen. destruct clock as [|now clock]; [discriminate|].
  destruct (Z.eq_dec now (lastTimestamp this)) as [->|Hne].
  - destruct (Z.eq_dec ((sequence this + 1) mod 4096) 0) as [Hz|Hnz].
    + rewrite generateV1_exhausted in Hgen by assumption.
      destruct (busyWait _ _ clock) as [[timestamp rest]|]; [|discriminate].
      injection Hgen as <- <- _.
      cbn [lastTimestamp sequence machineId]. repeat split; lia.
    + rewrite generateV1_same_timestamp in Hgen by assumption.
      injection Hgen as <- <- _.
      cbn [lastTimestamp sequence machineId]. repeat split; lia.
  - rewrite generateV1_new_timestamp in Hgen by assumption.
    injection Hgen as <- <- _.
      cbn [lastTimestamp sequence machineId]. repeat split; lia.
Qed.

(** The round trip of an identifier made by a generator with an integral
    machine identifier in range, from a 13-digit reading and two long
    renderings. *)
Lemma generateV1_round_trip (f : Q -> jstring) (m : Z) (this : TUIDGenerator)
      (clock : Clock) (random1 random2 ds1 ds2 tuid : jstring)
      (this' : TUIDGenerator) (clock' : Clock) :
  machineId this = of_Z m -> 0 <= m <= 1023 ->
  long_rendering random1 ds1 -> long_rendering random2 ds2 ->
  generateV1 f this clock random1 random2 = Some (tuid, this', clock') ->
  10 ^ 12 <= lastTimestamp this' < 10 ^ 13 ->
  v1_fields tuid (decimal_digits (Z.to_N (lastTimestamp this')))
            (decimal_digits (Z.to_N m))
            (decimal_digits (Z.to_N (sequence this')))
            (firstn 4 ds1) (firstn 4 ds2)
  /\ isValidTUID tuid = true
  /\ parseTUID tuid =
     Some {| Parsed.timestamp := of_Z (lastTimestamp this');
             Parsed.machineId := of_Z m;
             Parsed.sequence := of_Z (sequence this');
             Parsed.randomString1 := Some (firstn 4 ds1);
             Parsed.randomString2 := Some (firstn 4 ds2) |}.
Proof.
  intros Hm Hrange Hr1 Hr2 Hgen Hts.
  destruct (generateV1_result _ _ _ _ _ _ _ _ Hgen) as (-> & _ & Hseq).
  destruct (substring_long_rendering _ _ Hr1) as (-> & L1 & A1).
  destruct (substring_long_rendering _ _ Hr2) as (-> & L2 & A2).
  change (10 ^ 12) with 1000000000000 in Hts.
  change (10 ^ 13) with 10000000000000 in Hts.
  assert (Hfields :
    v1_fields
      (template f (lastTimestamp this') (machineId this) (sequence this')
                (firstn 4 ds1) (firstn 4 ds2))
      (decimal_digits (Z.to_N (lastTimestamp this')))
      (decimal_digits (Z.to_N m))
      (decimal_digits (Z.to_N (sequence this')))
      (firstn 4 ds1) (firstn 4 ds2)).
  { unfold v1_fields, template. rewrite Hm.
    rewrite !Number_toString_of_Z
      by (change (10 ^ 21) with 1000000000000000000000; lia).
    split.
    { repeat (rewrite <- app_assoc; cbn [app]). reflexivity. }
    split.
    { apply (decimal_digits_length 12); [|right];
        change (10 ^ N.of_nat 13)%N with 10000000000000%N;
        change (10 ^ N.of_nat 12)%N with 1000000000000%N; lia. }
    split; [apply decimal_digits_are_digits|].
    split.
    { split; [apply decimal_digits_nonempty|].
      apply (decimal_digits_length_le 3).
      change (10 ^ N.of_nat 4)%N with 10000%N. lia. }
    split; [apply decimal_digits_are_digits|].
    split.
    { split; [apply decimal_digits_nonempty|].
      apply (decimal_digits_length_le 3).
      change (10 ^ N.of_nat 4)%N with 10000%N. lia. }
    split; [apply decimal_digits_are_digits|].
    auto. }
  split; [exact Hfields|]. split.
  - apply isValidTUID_iff_format. red. eauto 6.
  - rewrite (parseTUID_fields _ _ _ _ _ _ Hfields).
    rewrite !decimal_value_decimal_digits, !Z2N.id by lia. reflexivity.
Qed.

Lemma busyWait_stuck (last timestamp : Z) (clock : Clock) :
  timestamp <= last ->
  Forall (fun reading => reading <= last) clock ->
  busyWait last timestamp clock = None.
Proof.
  intros Hle Hall. revert timestamp Hle.
  induction Hall as [|now clock Hnow Hall IH]; intros timestamp Hle;
    cbn [busyWait]; apply Z.leb_le in Hle; rewrite Hle; auto.
Qed.

Lemma js_lt_of_Z (a b : Z) : js_lt (of_Z a) (of_Z b) = (a <? b).
Proof.
  unfold js_lt, of_Z, Qle_bool. cbn [inject_Z Qnum Qden].
  rewrite !Z.mul_1_r. symmetry. apply Z.ltb_antisym.
Qed.

(** The reading that a call emits with, and the readings it has used. *)
Lemma generateV1_reading (f : Q -> jstring) (this : TUIDGenerator)
      (clock : Clock) (random1 random2 tuid : jstring)
      (this' : TUIDGenerator) (clock' : Clock) :
  generateV1 f this clock random1 random2 = Some (tuid, this', clock') ->
  exists used, clock = used ++ lastTimestamp this' :: clock'.
Proof.
  intros Hgen. destruct clock as [|now clock]; [discriminate|].
  destruct (Z.eq_dec now (lastTimestamp this)) as [->|Hne].
  - destruct (Z.eq_dec ((sequence this + 1) mod 4096) 0) as [Hz|Hnz].
    + rewrite generateV1_exhausted in Hgen by assumption.
      destruct (busyWait _ _ clock) as [[timestamp rest]|] eqn:Hw;
        [|discriminate].
      injection Hgen as _ <- <-. cbn [lastTimestamp].
      apply busyWait_skips in Hw; [|lia].
      destruct Hw as (skipped & -> & _). now exists (lastTimestamp this :: skipped).
    + rewrite generateV1_same_timestamp in Hgen by assumption.
      injection Hgen as _ <- <-. now exists [].
  - rewrite generateV1_new_timestamp in Hgen by assumption.
    injection Hgen as _ <- <-. now exists [].
Qed.

Lemma decimal_digits_inj (a b : N) :
  decimal_digits a = decimal_digits b -> a = b.
Proof.
  intros H. apply (f_equal digits_value) in H.
  now rewrite !digits_value_decimal_digits in H.
Qed.

(** The first three fields of a composed identifier. *)
Lemma template_fields (f : Q -> jstring) (timestamp m sequence : Z)
      (seg1 seg2 : jstring) :
  0 <= timestamp < 10 ^ 21 -> 0 <= m < 10 ^ 21 -> 0 <= sequence < 10 ^ 21 ->
  split dash (template f timestamp (of_Z m) sequence seg1 seg2) =
  decimal_digits (Z.to_N timestamp) :: decimal_digits (Z.to_N m)
  :: decimal_digits (Z.to_N sequence) :: split dash (seg1 ++ dash :: seg2).
Proof.
  intros Ht Hm Hs. unfold template.
  rewrite !Number_toString_of_Z by assumption.
  cbn [app].
  do 3 (rewrite split_app
         by apply digits_without_dash, decimal_digits_are_digits).
  reflexivity.
Qed.

Section Fields.

Variable f : Q -> jstring.

(** On readings after the epoch, from an instance with an integral machine
    identifier in range, the timestamp and sequence fields of the
    identifier are the decimal renderings of the pair left in the instance. *)
Lemma generateV1_fields (m : Z) (this : TUIDGenerator) (clock : Clock)
      (random1 random2 tuid : jstring) (this' : TUIDGenerator)
      (clock' : Clock) :
  machineId this = of_Z m -> 0 <= m <= 1023 ->
  Forall epoch_reading clock ->
  generateV1 f this clock random1 random2 = Some (tuid, this', clock') ->
  Forall epoch_reading clock'
  /\ machineId this' = of_Z m
  /\ 0 <= lastTimestamp this'
  /\ 0 <= sequence this'
  /\ field tuid 0 = Some (decimal_digits (Z.to_N (lastTimestamp this')))
  /\ field tuid 2 = Some (decimal_digits (Z.to_N (sequence this'))).
Proof.
  intros Hm Hrange Hclock Hgen.
  destruct (generateV1_reading _ _ _ _ _ _ _ _ Hgen) as (used & ->).
  apply Forall_app in Hclock. destruct Hclock as [_ Hclock].
  inversion Hclock as [|? ? Hnow Hrest]; subst.
  destruct (generateV1_result _ _ _ _ _ _ _ _ Hgen) as (-> & Hm' & Hseq).
  unfold epoch_reading in Hnow.
  split; [assumption|]. split; [congruence|].
  split; [lia|]. split; [lia|].
  unfold field. rewrite Hm, template_fields;
    try (change (10 ^ 21) with 1000000000000000000000; lia).
  split; reflexivity.
Qed.

Lemma generateMany_fields (m : Z) (randoms : list (jstring * jstring))
      (this : TUIDGenerator) (clock : Clock)
      (out : list (jstring * TUIDGenerator)) (final : TUIDGenerator)
      (clock' : Clock) :
  machineId this = of_Z m -> 0 <= m <= 1023 ->
  Forall epoch_reading clock ->
  generateMany f this clock randoms = Some (out, final, clock') ->
  Forall (fun o =>
            0 <= lastTimestamp (snd o)
            /\ 0 <= sequence (snd o)
            /\ field (fst o) 0
               = Some (decimal_digits (Z.to_N (lastTimestamp (snd o))))
            /\ field (fst o) 2
               = Some (decimal_digits (Z.to_N (sequence (snd o))))) out.
Proof.
  intros Hm Hrange. revert this clock out Hm.
  induction randoms as [|[r1 r2] randoms IH];
    intros this clock out Hm Hclock; cbn [generateMany].
  - intros [= <- _ _]. constructor.
  - destruct (generateV1 f this clock r1 r2)
      as [[[tuid this1] clock1]|] eqn:Hgen; [|discriminate].
    destruct (generateMany f this1 clock1 randoms)
      as [[[rest final'] clock2]|] eqn:Hrest; [|discriminate].
    intros [= <- <- <-].
    destruct (generateV1_fields _ _ _ _ _ _ _ _ Hm Hrange Hclock Hgen)
      as (Hclock1 & Hm1 & H).
    constructor; [exact H|]. exact (IH _ _ _ Hm1 Hclock1 Hrest).
Qed.

End Fields.

(** A first draw that base 36 renders with fewer than four digits leaves a
    first segment of fewer than four characters, and the identifier does not
    pass [isValidTUID]. *)
Lemma generateV1_short_rendering (f : Q -> jstring) (m : Z)
      (this : TUIDGenerator) (clock : Clock)
      (random1 random2 ds tuid : jstring) (this' : TUIDGenerator)
      (clock' : Clock) :
  machineId this = of_Z m -> 0 <= m <= 1023 ->
  Forall epoch_reading clock ->
  random1 = 48%N :: 46%N :: ds -> (length ds < 4)%nat -> ~ In dash ds ->
  generateV1 f this clock random1 random2 = Some (tuid, this', clock') ->
  isValidTUID tuid = false.
Proof.
  intros Hm Hrange Hepoch -> Hshort Hdash Hgen.
  destruct (isValidTUID tuid) eqn:Hvalid; [exfalso|reflexivity].
  apply isValidTUID_iff_format in Hvalid.
  destruct Hvalid as (ts & mid & sq & seg1 & seg2 & Hf).
  pose proof (split_v1_fields _ _ _ _ _ _ Hf) as Hsplit.
  destruct Hf as (_ & _ & _ & _ & _ & _ & _ & Hseg1 & _).
  destruct (generateV1_reading _ _ _ _ _ _ _ _ Hgen) as (used & ->).
  apply Forall_app in Hepoch. destruct Hepoch as [_ Hepoch].
  inversion Hepoch as [|? ? Hnow _]; subst. unfold epoch_reading in Hnow.
  destruct (generateV1_result _ _ _ _ _ _ _ _ Hgen) as (-> & _ & Hseq).
  rewrite Hm, template_fields in Hsplit;
    try (change (10 ^ 21) with 1000000000000000000000; lia).
  assert (Hsub : substring (48%N :: 46%N :: ds) 2 6 = ds).
  { unfold substring. cbn [length].
    replace (Nat.min 2 (S (S (length ds)))) with 2%nat by lia.
    replace (Nat.min 6 (S (S (length ds)))) with (S (S (length ds))) by lia.
    replace (Nat.min 2 (S (S (length ds)))) with 2%nat by lia.
    replace (Nat.max 2 (S (S (length ds)))) with (S (S (length ds))) by lia.
    cbn [skipn]. replace (S (S (length ds)) - 2)%nat with (length ds) by lia.
    apply firstn_all. }
  rewrite Hsub, split_app in Hsplit by assumption.
  injection Hsplit as _ _ _ E _. subst seg1. lia.
Qed.

(* ================================================================== *)
(** * The properties                                                    *)
(* ================================================================== *)

(** C3. Construction succeeds for every integer machine identifier in
    [0, 1023], with [sequence] 0 and [lastTimestamp] at the sentinel -1, and
    keeps the identifier given; for every integer outside that range it
    throws the configuration error and yields no instance. *)
Theorem constructor_range (m : Z) :
  (0 <= m <= 1023 ->
   new_TUIDGenerator (of_Z m) =
   inr {| sequence := 0; lastTimestamp := -1; machineId := of_Z m |})
  /\ (m < 0 \/ 1023 < m ->
      new_TUIDGenerator (of_Z m) =
      inl (Error (js "Machine ID must be between 0 and 1023."))).
Proof.
  unfold new_TUIDGenerator, js_gt. rewrite !js_lt_of_Z. split; intros H.
  - replace (m <? 0) with false by (symmetry; apply Z.ltb_ge; lia).
    replace (1023 <? m) with false by (symmetry; apply Z.ltb_ge; lia).
    reflexivity.
  - destruct H as [H|H].
    + replace (m <? 0) with true by (symmetry; apply Z.ltb_lt; lia).
      reflexivity.
    + replace (1023 <? m) with true by (symmetry; apply Z.ltb_lt; lia).
      now rewrite orb_true_r.
Qed.

Lemma constructor_range_witness :
  new_TUIDGenerator (of_Z 512) =
  inr {| sequence := 0; lastTimestamp := -1; machineId := of_Z 512 |}
  /\ new_TUIDGenerator (of_Z 1024) =
     inl (Error (js "Machine ID must be between 0 and 1023."))
  /\ new_TUIDGenerator (of_Z (-1)) =
     inl (Error (js "Machine ID must be between 0 and 1023.")).
Proof.
  split; [|split].
  - apply (proj1 (constructor_range 512)). lia.
  - apply (proj2 (constructor_range 1024)). lia.
  - apply (proj2 (constructor_range (-1))). lia.
Defined.

(** C10. The constructor tests the two bounds and nothing else: it rejects
    exactly the numbers below 0 or above 1023, so every number strictly
    between 0 and 1023, integral or not (1.5 for one), and [NaN], for which
    neither comparison holds, give an instance. *)
Theorem constructor_no_integrality_check :
  (forall x : jsnum,
      (exists e, new_TUIDGenerator x = inl e)
      <-> js_lt x (of_Z 0) = true \/ js_gt x (of_Z 1023) = true)
  /\ (forall q : Q,
         (0 < q)%Q -> (q < 1023)%Q ->
         new_TUIDGenerator (JNum q) =
         inr {| sequence := 0; lastTimestamp := -1; machineId := JNum q |})
  /\ is_integer (3 # 2) = false
  /\ new_TUIDGenerator (JNum (3 # 2)) =
     inr {| sequence := 0; lastTimestamp := -1; machineId := JNum (3 # 2) |}
  /\ new_TUIDGenerator JNaN =
     inr {| sequence := 0; lastTimestamp := -1; machineId := JNaN |}.
Proof.
  split; [|split; [|repeat split]].
  - intros x. unfold new_TUIDGenerator. rewrite <- orb_true_iff.
    destruct (js_lt x (of_Z 0) || js_gt x (of_Z 1023)); split.
    + reflexivity.
    + eauto.
    + intros [e He]. discriminate.
    + discriminate.
  - intros q Hpos Hlt. unfold new_TUIDGenerator, js_gt, js_lt, of_Z.
    assert (H0 : Qle_bool (inject_Z 0) q = true)
      by (apply Qle_bool_iff, Qlt_le_weak; exact Hpos).
    assert (H1 : Qle_bool q (inject_Z 1023) = true)
      by (apply Qle_bool_iff, Qlt_le_weak; exact Hlt).
    now rewrite H0, H1.
Qed.

Lemma constructor_no_integrality_check_witness :
  new_TUIDGenerator (JNum (1023 # 2)) =
  inr {| sequence := 0; lastTimestamp := -1; machineId := JNum (1023 # 2) |}.
Proof.
  apply (proj1 (proj2 constructor_no_integrality_check)); reflexivity.
Defined.

(** C6. [isValidTUID] accepts a string exactly when it is 13 decimal digits,
    a dash, 1 to 4 digits, a dash, 1 to 4 digits, a dash, 4
    lowercase-alphanumeric characters, a dash and 4 lowercase-alphanumeric
    characters, with nothing around.  Hence an accepted string splits on
    dashes into exactly five fields of those lengths, a string that holds an
    uppercase letter is rejected, and an accepted string with characters
    added in front or behind is rejected. *)
Theorem isValidTUID_format (text : jstring) :
  (isValidTUID text = true <-> v1_format text)
  /\ (isValidTUID text = true ->
      exists ts mid sq seg1 seg2,
        split dash text = [ts; mid; sq; seg1; seg2]
        /\ length ts = 13%nat
        /\ (1 <= length mid <= 4)%nat
        /\ (1 <= length sq <= 4)%nat
        /\ length seg1 = 4%nat
        /\ length seg2 = 4%nat)
  /\ ((exists c, In c text /\ uppercase_letter c) ->
      isValidTUID text = false)
  /\ (isValidTUID text = true ->
      forall pre post,
        isValidTUID (pre ++ text ++ post) = true -> pre = [] /\ post = []).
Proof.
  split; [apply isValidTUID_iff_format|]. split; [|split].
  - intros Hvalid. apply isValidTUID_iff_format in Hvalid.
    destruct Hvalid as (ts & mid & sq & seg1 & seg2 & Hf).
    exists ts, mid, sq, seg1, seg2.
    split; [exact (split_v1_fields _ _ _ _ _ _ Hf)|].
    unfold v1_fields in Hf. tauto.
  - intros (c & Hin & Hup).
    destruct (isValidTUID text) eqn:Hvalid; [|reflexivity].
    apply isValidTUID_iff_format in Hvalid.
    destruct (no_uppercase_in_v1_format _ _ Hvalid Hin Hup).
  - intros Hvalid pre post Hlonger.
    apply isValidTUID_iff_format in Hvalid, Hlonger.
    exact (v1_format_no_surroundings _ _ _ Hvalid Hlonger).
Qed.

Lemma isValidTUID_format_witness :
  v1_format (js "1609459200000-1-0-abcd-efgh")
  /\ isValidTUID (js "1609459200000-1-0-abCd-efgh") = false
  /\ (isValidTUID (js "x1609459200000-1-0-abcd-efgh") = true -> False).
Proof.
  split; [|split].
  - apply (proj1 (isValidTUID_format (js "1609459200000-1-0-abcd-efgh"))).
    reflexivity.
  - apply (proj1 (proj2 (proj2
             (isValidTUID_format (js "1609459200000-1-0-abCd-efgh"))))).
    exists 67%N. unfold uppercase_letter. split; [|lia].
    vm_compute. tauto.
  - intros Hlonger.
    destruct (proj2 (proj2 (proj2
                (isValidTUID_format (js "1609459200000-1-0-abcd-efgh"))))
                eq_refl (js "x") [] Hlonger) as [Hpre _].
    discriminate Hpre.
Defined.

(** C7. [isValidTUID] checks digit counts, not ranges: every identifier
    whose machine identifier and sequence fields are the decimal renderings
    of numbers up to 9999 is accepted, and the one with both fields 9999 is
    accepted and parsed to machine identifier 9999, above 1023, and sequence
    9999, above 4095. *)
Theorem isValidTUID_ignores_ranges :
  (forall m s : Z,
      0 <= m <= 9999 -> 0 <= s <= 9999 ->
      isValidTUID (js "1609459200000" ++ dash :: decimal_digits (Z.to_N m)
                      ++ dash :: decimal_digits (Z.to_N s)
                      ++ js "-abcd-efgh") = true)
  /\ isValidTUID (js "1609459200000-9999-9999-abcd-efgh") = true
  /\ parseTUID (js "1609459200000-9999-9999-abcd-efgh") =
     Some {| Parsed.timestamp := of_Z 1609459200000;
             Parsed.machineId := of_Z 9999;
             Parsed.sequence := of_Z 9999;
             Parsed.randomString1 := Some (js "abcd");
             Parsed.randomString2 := Some (js "efgh") |}
  /\ 1023 < 9999 /\ 4095 < 9999.
Proof.
  split; [|repeat split].
  intros m s Hm Hs. apply isValidTUID_iff_format.
  exists (js "1609459200000"), (decimal_digits (Z.to_N m)),
    (decimal_digits (Z.to_N s)), (js "abcd"), (js "efgh").
  assert (Hlen : forall n : Z, 0 <= n <= 9999 ->
            (1 <= length (decimal_digits (Z.to_N n)) <= 4)%nat).
  { intros n Hn. split; [apply decimal_digits_nonempty|].
    apply (decimal_digits_length_le 3).
    change (10 ^ N.of_nat 4)%N with 10000%N. lia. }
  unfold v1_fields.
  split; [repeat (rewrite <- app_assoc; cbn [app]); reflexivity|].
  split; [reflexivity|].
  split; [now apply digits_check|].
  split; [now apply Hlen|]. split; [apply decimal_digits_are_digits|].
  split; [now apply Hlen|]. split; [apply decimal_digits_are_digits|].
  split; [reflexivity|].
  split; [now apply lower_alnum_check|].
  split; [reflexivity|].
  now apply lower_alnum_check.
Qed.

Lemma isValidTUID_ignores_ranges_witness :
  isValidTUID (js "1609459200000-1024-4096-abcd-efgh") = true.
Proof.
  apply (proj1 isValidTUID_ignores_ranges 1024 4096); lia.
Defined.

(** C8. [getTUIDVersion] returns ["v1"] exactly when [isValidTUID] returns
    true and ["unknown"] exactly when it returns false; there is no third
    result. *)
Theorem getTUIDVersion_spec (text : jstring) :
  (getTUIDVersion text = js "v1" <-> isValidTUID text = true)
  /\ (getTUIDVersion text = js "unknown" <-> isValidTUID text = false)
  /\ (getTUIDVersion text = js "v1" \/ getTUIDVersion text = js "unknown").
Proof.
  unfold getTUIDVersion.
  destruct (isValidTUID text); repeat split; auto; discriminate.
Qed.

Lemma getTUIDVersion_spec_witness :
  getTUIDVersion (js "1609459200000-1-0-abcd-efgh") = js "v1"
  /\ getTUIDVersion (js "invalid-tuid") = js "unknown".
Proof.
  split.
  - apply (proj1 (getTUIDVersion_spec _)). reflexivity.
  - apply (proj1 (proj2 (getTUIDVersion_spec _))). reflexivity.
Defined.

(** C9. [parseTUID] returns null exactly when [isValidTUID] returns false.
    A valid string is five fields joined by dashes, [ts-mid-sq-seg1-seg2]
    with 13, 1 to 4 and 1 to 4 digits and two 4-character segments; on it
    [parseTUID] does not fail: it returns the object whose timestamp,
    machine identifier and sequence are the decimal values of [ts], [mid]
    and [sq], whatever their size, and whose two segments are [seg1] and
    [seg2] as they stand.  This holds for every way of writing the string
    as such fields, and those are the pieces that cutting at the dashes
    gives.  For ["1609459200000-1-0-abcd-efgh"] the result is 1609459200000,
    1, 0, ["abcd"] and ["efgh"]. *)
Theorem parseTUID_spec (text : jstring) :
  (parseTUID text = None <-> isValidTUID text = false)
  /\ (isValidTUID text = true ->
      exists ts mid sq seg1 seg2,
        text = ts ++ dash :: mid ++ dash :: sq ++ dash :: seg1 ++ dash :: seg2
        /\ v1_fields text ts mid sq seg1 seg2
        /\ split dash text = [ts; mid; sq; seg1; seg2]
        /\ parseTUID text =
           Some {| Parsed.timestamp := of_Z (decimal_value ts);
                   Parsed.machineId := of_Z (decimal_value mid);
                   Parsed.sequence := of_Z (decimal_value sq);
                   Parsed.randomString1 := Some seg1;
                   Parsed.randomString2 := Some seg2 |})
  /\ (forall ts mid sq seg1 seg2,
         v1_fields text ts mid sq seg1 seg2 ->
         isValidTUID text = true
         /\ parseTUID text =
            Some {| Parsed.timestamp := of_Z (decimal_value ts);
                    Parsed.machineId := of_Z (decimal_value mid);
                    Parsed.sequence := of_Z (decimal_value sq);
                    Parsed.randomString1 := Some seg1;
                    Parsed.randomString2 := Some seg2 |})
  /\ parseTUID (js "1609459200000-1-0-abcd-efgh") =
     Some {| Parsed.timestamp := of_Z 1609459200000;
             Parsed.machineId := of_Z 1;
             Parsed.sequence := of_Z 0;
             Parsed.randomString1 := Some (js "abcd");
             Parsed.randomString2 := Some (js "efgh") |}.
Proof.
  split; [|split; [|split; [|reflexivity]]].
  - unfold parseTUID. destruct (isValidTUID text); cbn [negb];
      split; congruence.
  - intros Hvalid. apply isValidTUID_iff_format in Hvalid.
    destruct Hvalid as (ts & mid & sq & seg1 & seg2 & Hf).
    exists ts, mid, sq, seg1, seg2. split; [exact (proj1 Hf)|].
    split; [exact Hf|]. split.
    + exact (split_v1_fields _ _ _ _ _ _ Hf).
    + exact (parseTUID_fields _ _ _ _ _ _ Hf).
  - intros ts mid sq seg1 seg2 Hf. split.
    + apply isValidTUID_iff_format. red. eauto 6.
    + exact (parseTUID_fields _ _ _ _ _ _ Hf).
Qed.

Lemma parseTUID_spec_witness :
  isValidTUID (js "1697034958283-512-3-abc1-def2") = true
  /\ parseTUID (js "1697034958283-512-3-abc1-def2") =
     Some {| Parsed.timestamp := of_Z 1697034958283;
             Parsed.machineId := of_Z 512;
             Parsed.sequence := of_Z 3;
             Parsed.randomString1 := Some (js "abc1");
             Parsed.randomString2 := Some (js "def2") |}.
Proof.
  assert (Hf : v1_fields (js "1697034958283-512-3-abc1-def2")
                         (js "1697034958283") (js "512") (js "3")
                         (js "abc1") (js "def2")).
  { unfold v1_fields. split; [reflexivity|].
    split; [reflexivity|]. split; [now apply digits_check|].
    split; [cbn; lia|]. split; [now apply digits_check|].
    split; [cbn; lia|]. split; [now apply digits_check|].
    split; [reflexivity|]. split; [now apply lower_alnum_check|].
    split; [reflexivity|]. now apply lower_alnum_check. }
  exact (proj1 (proj2 (proj2
           (parseTUID_spec (js "1697034958283-512-3-abc1-def2"))))
           _ _ _ _ _ Hf).
Defined.

(** C4. When the reading equals [lastTimestamp], the call stores
    [(sequence + 1) mod 4096]: the mask with 4095 that the code applies is
    that remainder, and the call returns at once with it unless it is 0.
    After any call that returns, the sequence lies in 0..4095. *)
Theorem generateV1_sequence_increment (f : Q -> jstring)
        (this : TUIDGenerator) (clock : Clock) (random1 random2 : jstring) :
  Z.land (ToInt32 (sequence this + 1)) 4095 = (sequence this + 1) mod 4096
  /\ (forall tuid this' clock',
         generateV1 f this (lastTimestamp this :: clock) random1 random2
         = Some (tuid, this', clock') ->
         sequence this' = (sequence this + 1) mod 4096)
  /\ ((sequence this + 1) mod 4096 <> 0 ->
      generateV1 f this (lastTimestamp this :: clock) random1 random2 =
      Some (template f (lastTimestamp this) (machineId this)
                     ((sequence this + 1) mod 4096)
                     (substring random1 2 6) (substring random2 2 6),
            {| sequence := (sequence this + 1) mod 4096;
               lastTimestamp := lastTimestamp this;
               machineId := machineId this |},
            clock))
  /\ (forall readings tuid this' clock',
         generateV1 f this readings random1 random2
         = Some (tuid, this', clock') ->
         0 <= sequence this' <= 4095).
Proof.
  split; [apply sequence_mask|]. split; [|split].
  - intros tuid this' clock' Hgen.
    destruct (Z.eq_dec ((sequence this + 1) mod 4096) 0) as [Hz|Hnz].
    + rewrite generateV1_exhausted in Hgen by assumption.
      destruct (busyWait _ _ clock) as [[timestamp rest]|]; [|discriminate].
      injection Hgen as _ <- _. cbn [sequence]. congruence.
    + rewrite generateV1_same_timestamp in Hgen by assumption.
      now injection Hgen as _ <- _.
  - apply generateV1_same_timestamp.
  - intros readings tuid this' clock' Hgen.
    now destruct (generateV1_result _ _ _ _ _ _ _ _ Hgen) as (_ & _ & H).
Qed.

Lemma generateV1_sequence_increment_witness :
  sequence {| sequence := 4095; lastTimestamp := 1609459200000;
              machineId := of_Z 1 |} = (4094 + 1) mod 4096
  /\ 0 <= 4095 <= 4095.
Proof.
  pose (this := {| sequence := 4094; lastTimestamp := 1609459200000;
                   machineId := of_Z 1 |}).
  pose (f := fun _ : Q => @nil N).
  split.
  - apply (proj1 (proj2 (generateV1_sequence_increment
                           f this [] (js "0.abcd") (js "0.efgh")))
                 (js "1609459200000-1-4095-abcd-efgh") _ []).
    reflexivity.
  - apply (proj2 (proj2 (proj2 (generateV1_sequence_increment
                                  f this [] (js "0.abcd") (js "0.efgh"))))
                 [1609459200000] (js "1609459200000-1-4095-abcd-efgh")
                 {| sequence := 4095; lastTimestamp := 1609459200000;
                    machineId := of_Z 1 |} []).
    reflexivity.
Defined.

(** C5. A reading below [lastTimestamp] is handled as any new millisecond:
    the call returns at once, without error, having consumed that one
    reading; the sequence is 0, [lastTimestamp] is the smaller reading, and
    the identifier and the instance are those that an instance whose
    [lastTimestamp] lay before the reading would have produced. *)
Theorem generateV1_backward_clock (f : Q -> jstring) (this : TUIDGenerator)
        (now : Z) (clock : Clock) (random1 random2 : jstring) :
  now < lastTimestamp this ->
  generateV1 f this (now :: clock) random1 random2 =
  Some (template f now (machineId this) 0
                 (substring random1 2 6) (substring random2 2 6),
        {| sequence := 0; lastTimestamp := now; machineId := machineId this |},
        clock)
  /\ forall earlier : TUIDGenerator,
      lastTimestamp earlier < now ->
      machineId earlier = machineId this ->
      generateV1 f earlier (now :: clock) random1 random2 =
      generateV1 f this (now :: clock) random1 random2.
Proof.
  intros Hback. split.
  - apply generateV1_new_timestamp. lia.
  - intros earlier Hforward Hm.
    rewrite !generateV1_new_timestamp by lia. now rewrite Hm.
Qed.

Lemma generateV1_backward_clock_witness :
  generateV1 (fun _ => [])
             {| sequence := 7; lastTimestamp := 1609459200005;
                machineId := of_Z 1 |}
             [1609459200000; 1609459200006] (js "0.abcd1") (js "0.efgh2") =
  Some (js "1609459200000-1-0-abcd-efgh",
        {| sequence := 0; lastTimestamp := 1609459200000;
           machineId := of_Z 1 |},
        [1609459200006]).
Proof.
  apply (proj1 (generateV1_backward_clock
                  (fun _ => [])
                  {| sequence := 7; lastTimestamp := 1609459200005;
                     machineId := of_Z 1 |}
                  1609459200000 [1609459200006] (js "0.abcd1") (js "0.efgh2")
                  eq_refl)).
Defined.

(** C2. On a clock whose readings never decrease, the calls made on one
    instance never put the same timestamp and sequence into two
    identifiers: each call returns one identifier, rendered from the pair it
    leaves in the instance, and those pairs are pairwise distinct; with an
    integral machine identifier in range and readings after the epoch, no
    two identifiers have both the same timestamp field and the same
    sequence field.  When the incremented sequence wraps to 0, the call reads
    the clock again and again, passing over every reading not above
    [lastTimestamp], and emits with the first reading above it; while no
    such reading comes it does not return. *)
Theorem generateV1_unique_timestamp_sequence (f : Q -> jstring)
        (this : TUIDGenerator) (clock : Clock)
        (randoms : list (jstring * jstring))
        (out : list (jstring * TUIDGenerator)) (final : TUIDGenerator)
        (clock' : Clock) :
  Sorted Z.le clock ->
  generateMany f this clock randoms = Some (out, final, clock') ->
  length out = length randoms
  /\ Forall (fun o => exists seg1 seg2,
                 fst o = template f (lastTimestamp (snd o)) (machineId this)
                                  (sequence (snd o)) seg1 seg2) out
  /\ NoDup (map (fun o => emitted (snd o)) out)
  /\ (forall m : Z,
         machineId this = of_Z m -> 0 <= m <= 1023 ->
         Forall epoch_reading clock ->
         forall i j a b,
           i <> j -> nth_error out i = Some a -> nth_error out j = Some b ->
           ~ (field (fst a) 0 = field (fst b) 0
              /\ field (fst a) 2 = field (fst b) 2))
  /\ (forall (g : TUIDGenerator) (skipped : list Z) (later : Z) (rest : Clock)
             (random1 random2 : jstring),
         Z.land (ToInt32 (sequence g + 1)) 4095 = 0 ->
         Forall (fun reading => reading <= lastTimestamp g) skipped ->
         (lastTimestamp g < later ->
          generateV1 f g (lastTimestamp g :: skipped ++ later :: rest)
                     random1 random2 =
          Some (template f later (machineId g) 0
                         (substring random1 2 6) (substring random2 2 6),
                {| sequence := 0; lastTimestamp := later;
                   machineId := machineId g |},
                rest))
         /\ generateV1 f g (lastTimestamp g :: skipped) random1 random2
            = None).
Proof.
  intros Hsorted Hrun.
  apply Sorted_StronglySorted in Hsorted; [|exact Z.le_trans].
  assert (Hdistinct : NoDup (map (fun o => emitted (snd o)) out)).
  { apply StronglySorted_lex_lt_NoDup.
    exact (generateMany_sorted _ _ _ _ _ _ _ Hsorted Hrun). }
  split; [exact (generateMany_length _ _ _ _ _ _ _ Hrun)|].
  split; [exact (generateMany_rendered _ _ _ _ _ _ _ Hrun)|].
  split; [exact Hdistinct|]. split.
  - intros m Hm Hrange Hepoch i j a b Hij Ha Hb [Hts Hseq].
    pose proof (generateMany_fields _ _ _ _ _ _ _ _ Hm Hrange Hepoch Hrun)
      as Hfields.
    rewrite Forall_forall in Hfields.
    destruct (Hfields a (nth_error_In _ _ Ha)) as (Ta & Sa & Fa0 & Fa2).
    destruct (Hfields b (nth_error_In _ _ Hb)) as (Tb & Sb & Fb0 & Fb2).
    rewrite Fa0, Fb0 in Hts. rewrite Fa2, Fb2 in Hseq.
    injection Hts as Hts. injection Hseq as Hseq.
    apply decimal_digits_inj in Hts, Hseq.
    assert (Hsame : emitted (snd a) = emitted (snd b)).
    { unfold emitted. f_equal; lia. }
    apply Hij.
    apply (proj1 (NoDup_nth_error _) Hdistinct).
    + rewrite length_map. apply nth_error_Some. congruence.
    + rewrite (map_nth_error _ _ _ Ha), (map_nth_error _ _ _ Hb).
      now rewrite Hsame.
  - intros g skipped later rest random1 random2 Hwrap Hskipped.
    rewrite sequence_mask in Hwrap. split.
    + intros Hlater. rewrite generateV1_exhausted by assumption.
      rewrite busyWait_finds; auto. lia.
    + rewrite generateV1_exhausted by assumption.
      rewrite busyWait_stuck; auto. lia.
Qed.

Lemma generateV1_unique_timestamp_sequence_witness :
  NoDup [(1609459200000, 4095); (1609459200001, 0); (1609459200001, 1)]
  /\ ~ (field (js "1609459200000-1-4095-abcd-efgh") 0
        = field (js "1609459200001-1-0-ijkl-mnop") 0
        /\ field (js "1609459200000-1-4095-abcd-efgh") 2
           = field (js "1609459200001-1-0-ijkl-mnop") 2).
Proof.
  pose (this := {| sequence := 4094; lastTimestamp := 1609459200000;
                   machineId := of_Z 1 |}).
  pose (clock := [1609459200000; 1609459200000; 1609459200000;
                  1609459200001; 1609459200001]).
  pose (randoms := [(js "0.abcd1", js "0.efgh2"); (js "0.ijkl3", js "0.mnop4");
                    (js "0.qrst5", js "0.uvwx6")]).
  assert (Hsorted : Sorted Z.le clock).
  { unfold clock. repeat constructor; discriminate. }
  assert (Hepoch : Forall epoch_reading clock).
  { unfold clock, epoch_reading. repeat constructor; discriminate. }
  assert (Hm : 0 <= 1 <= 1023) by lia.
  assert (Hij : 0%nat <> 1%nat) by discriminate.
  pose proof (generateV1_unique_timestamp_sequence
                (fun _ => []) this clock randoms _ _ _ Hsorted eq_refl)
    as (_ & _ & Hdistinct & Hfields & _).
  split; [exact Hdistinct|].
  exact (Hfields 1 eq_refl Hm Hepoch 0%nat 1%nat _ _ Hij eq_refl eq_refl).
Defined.

(** C1, at an input where the code departs from it.  A generator built for
    machine 1 reads the clock at 1609459200000 and draws 0.5 first, which
    base 36 renders as [0.i]: [substring(2, 6)] then yields the one character
    [i], the identifier is [1609459200000-1-0-i-k3x9], [isValidTUID] rejects
    it and [parseTUID] returns null; a draw of 0 renders as [0] and leaves an
    empty segment.  ([generateV1_short_rendering] covers every rendering
    shorter than four digits; with two renderings of at least four digits,
    [generateV1_round_trip] gives the round trip.) *)
Theorem generateV1_short_random_segment (f : Q -> jstring) :
  new_TUIDGenerator (of_Z 1) =
  inr {| sequence := 0; lastTimestamp := -1; machineId := of_Z 1 |}
  /\ (exists q, radix36_value (js "0.i") = Some q /\ (q == 1 # 2)%Q)
  /\ substring (js "0.i") 2 6 = js "i"
  /\ substring (js "0") 2 6 = []
  /\ generateV1 f {| sequence := 0; lastTimestamp := -1; machineId := of_Z 1 |}
                [1609459200000] (js "0.i") (js "0.k3x9z1a") =
     Some (js "1609459200000-1-0-i-k3x9",
           {| sequence := 0; lastTimestamp := 1609459200000;
              machineId := of_Z 1 |},
           [])
  /\ isValidTUID (js "1609459200000-1-0-i-k3x9") = false
  /\ parseTUID (js "1609459200000-1-0-i-k3x9") = None.
Proof.
  split; [reflexivity|]. split.
  - exists (18 # 36)%Q. split; reflexivity.
  - repeat split.
Qed.

Lemma generateV1_round_trip_witness :
  isValidTUID (js "1609459200000-1-0-abcd-efgh") = true.
Proof.
  pose (this := {| sequence := 0; lastTimestamp := -1; machineId := of_Z 1 |}).
  assert (H1 : long_rendering (js "0.abcd1") (js "abcd1")).
  { split; [reflexivity|]. split; [simpl; lia|now apply lower_alnum_check]. }
  assert (H2 : long_rendering (js "0.efgh2") (js "efgh2")).
  { split; [reflexivity|]. split; [simpl; lia|now apply lower_alnum_check]. }
  assert (Hts : 10 ^ 12 <= 1609459200000 < 10 ^ 13) by (simpl; lia).
  assert (Hm : 0 <= 1 <= 1023) by lia.
  exact (proj1 (proj2 (generateV1_round_trip
                         (fun _ => []) 1 this [1609459200000]
                         (js "0.abcd1") (js "0.efgh2") _ _ _ _ _
                         eq_refl Hm H1 H2 eq_refl Hts))).
Defined.

(* ================================================================== *)
(** * Further properties: order and repetition                          *)
(* ================================================================== *)

Lemma StronglySorted_nth_error (A : Type) (R : A -> A -> Prop) (l : list A)
      (i j : nat) (x y : A) :
  StronglySorted R l -> (i < j)%nat ->
  nth_error l i = Some x -> nth_error l j = Some y -> R x y.
Proof.
  intros Hs. revert i j. induction Hs as [|z l Hs IH Hall]; intros i j Hij Hi Hj.
  - destruct i; discriminate.
  - destruct j as [|j]; [lia|]. cbn [nth_error] in Hj.
    destruct i as [|i].
    + injection Hi as <-. rewrite Forall_forall in Hall.
      apply Hall. eapply nth_error_In, Hj.
    + cbn [nth_error] in Hi. apply (IH i j); auto. lia.
Qed.

Lemma NoDup_map_finer (A B C : Type) (g : A -> B) (h : A -> C) (l : list A) :
  (forall a b, In a l -> In b l -> h a = h b -> g a = g b) ->
  NoDup (map g l) -> NoDup (map h l).
Proof.
  induction l as [|a l IH]; intros Hfiner Hnd; cbn [map]; [constructor|].
  cbn [map] in Hnd. inversion Hnd as [|? ? Hnotin Hnd']; subst.
  constructor.
  - intros Hin. apply in_map_iff in Hin. destruct Hin as (b & Hb & Hbl).
    apply Hnotin. apply in_map_iff. exists b. split; [|assumption].
    apply Hfiner; [now right|now left|assumption].
  - apply IH; [|assumption].
    intros x y Hx Hy. apply Hfiner; now right.
Qed.

(** X1. On a clock whose readings never decrease, the identifiers of one
    instance come out in order.  Each identifier is the template filled with
    the timestamp and sequence its call leaves in the instance; of two
    identifiers, the later never carries a smaller timestamp than the
    earlier, and with the same timestamp it carries a greater sequence.
    With an integral machine identifier in range and readings after the
    epoch, the first and third dash-separated fields of the two identifiers
    are the decimal renderings of those timestamps and sequences. *)
Theorem generateV1_in_order (f : Q -> jstring) (this : TUIDGenerator)
        (clock : Clock) (randoms : list (jstring * jstring))
        (out : list (jstring * TUIDGenerator)) (final : TUIDGenerator)
        (clock' : Clock) :
  Sorted Z.le clock ->
  generateMany f this clock randoms = Some (out, final, clock') ->
  forall i j a b,
    (i < j)%nat -> nth_error out i = Some a -> nth_error out j = Some b ->
    (exists seg1 seg2,
        fst a = template f (lastTimestamp (snd a)) (machineId this)
                         (sequence (snd a)) seg1 seg2)
    /\ (exists seg1 seg2,
           fst b = template f (lastTimestamp (snd b)) (machineId this)
                            (sequence (snd b)) seg1 seg2)
    /\ lastTimestamp (snd a) <= lastTimestamp (snd b)
    /\ (lastTimestamp (snd a) = lastTimestamp (snd b) ->
        sequence (snd a) < sequence (snd b))
    /\ (forall m : Z,
           machineId this = of_Z m -> 0 <= m <= 1023 ->
           Forall epoch_reading clock ->
           exists ta sa tb sb : Z,
             field (fst a) 0 = Some (decimal_digits (Z.to_N ta))
             /\ field (fst a) 2 = Some (decimal_digits (Z.to_N sa))
             /\ field (fst b) 0 = Some (decimal_digits (Z.to_N tb))
             /\ field (fst b) 2 = Some (decimal_digits (Z.to_N sb))
             /\ 0 <= ta <= tb /\ 0 <= sa /\ 0 <= sb
             /\ (ta = tb -> sa < sb)).
Proof.
  intros Hsorted Hrun i j a b Hij Ha Hb.
  apply Sorted_StronglySorted in Hsorted; [|exact Z.le_trans].
  pose proof (generateMany_sorted _ _ _ _ _ _ _ Hsorted Hrun) as Hinc.
  assert (Hlt : lex_lt (emitted (snd a)) (emitted (snd b))).
  { apply (StronglySorted_nth_error _ _ _ i j _ _ Hinc Hij).
    - exact (map_nth_error _ _ _ Ha).
    - exact (map_nth_error _ _ _ Hb). }
  unfold lex_lt, emitted in Hlt. cbn [fst snd] in Hlt.
  pose proof (generateMany_rendered _ _ _ _ _ _ _ Hrun) as Hrendered.
  rewrite Forall_forall in Hrendered.
  split; [exact (Hrendered a (nth_error_In _ _ Ha))|].
  split; [exact (Hrendered b (nth_error_In _ _ Hb))|].
  split; [lia|]. split; [lia|].
  intros m Hm Hrange Hepoch.
  pose proof (generateMany_fields _ _ _ _ _ _ _ _ Hm Hrange Hepoch Hrun)
    as Hfields.
  rewrite Forall_forall in Hfields.
  destruct (Hfields a (nth_error_In _ _ Ha)) as (Ta & Sa & Fa0 & Fa2).
  destruct (Hfields b (nth_error_In _ _ Hb)) as (Tb & Sb & Fb0 & Fb2).
  exists (lastTimestamp (snd a)), (sequence (snd a)),
    (lastTimestamp (snd b)), (sequence (snd b)).
  repeat split; try assumption; lia.
Qed.

Lemma generateV1_in_order_witness :
  exists ta sa tb sb : Z,
    field (js "1609459200000-1-0-abcd-efgh") 0
    = Some (decimal_digits (Z.to_N ta))
    /\ field (js "1609459200000-1-0-abcd-efgh") 2
       = Some (decimal_digits (Z.to_N sa))
    /\ field (js "1609459200000-1-1-ijkl-mnop") 0
       = Some (decimal_digits (Z.to_N tb))
    /\ field (js "1609459200000-1-1-ijkl-mnop") 2
       = Some (decimal_digits (Z.to_N sb))
    /\ 0 <= ta <= tb /\ 0 <= sa /\ 0 <= sb
    /\ (ta = tb -> sa < sb).
Proof.
  pose (this := {| sequence := 0; lastTimestamp := -1; machineId := of_Z 1 |}).
  pose (clock := [1609459200000; 1609459200000]).
  pose (randoms := [(js "0.abcd1", js "0.efgh2"); (js "0.ijkl3", js "0.mnop4")]).
  assert (Hsorted : Sorted Z.le clock).
  { unfold clock. repeat constructor; discriminate. }
  assert (Hepoch : Forall epoch_reading clock).
  { unfold clock, epoch_reading. repeat constructor; discriminate. }
  assert (Hij : (0 < 1)%nat) by lia.
  assert (Hm : 0 <= 1 <= 1023) by lia.
  exact (proj2 (proj2 (proj2 (proj2
           (generateV1_in_order (fun _ => []) this clock randoms _ _ _
                                Hsorted eq_refl 0%nat 1%nat _ _ Hij
                                eq_refl eq_refl))))
           1 eq_refl Hm Hepoch).
Defined.

(** X2. On a clock whose readings never decrease and lie after the epoch,
    an instance with an integral machine identifier in range never returns
    the same identifier twice. *)
Theorem generateV1_never_repeats (f : Q -> jstring) (m : Z)
        (this : TUIDGenerator) (clock : Clock)
        (randoms : list (jstring * jstring))
        (out : list (jstring * TUIDGenerator)) (final : TUIDGenerator)
        (clock' : Clock) :
  machineId this = of_Z m -> 0 <= m <= 1023 ->
  Sorted Z.le clock -> Forall epoch_reading clock ->
  generateMany f this clock randoms = Some (out, final, clock') ->
  NoDup (map fst out).
Proof.
  intros Hm Hrange Hsorted Hepoch Hrun.
  apply Sorted_StronglySorted in Hsorted; [|exact Z.le_trans].
  pose proof (generateMany_sorted _ _ _ _ _ _ _ Hsorted Hrun) as Hinc.
  apply StronglySorted_lex_lt_NoDup in Hinc.
  pose proof (generateMany_fields _ _ _ _ _ _ _ _ Hm Hrange Hepoch Hrun)
    as Hfields.
  rewrite Forall_forall in Hfields.
  revert Hinc. apply NoDup_map_finer.
  intros a b Ha Hb Hsame.
  destruct (Hfields a Ha) as (Ta & Sa & Fa0 & Fa2).
  destruct (Hfields b Hb) as (Tb & Sb & Fb0 & Fb2).
  rewrite Hsame, Fb0 in Fa0. rewrite Hsame, Fb2 in Fa2.
  injection Fa0 as Hts. injection Fa2 as Hseq.
  apply decimal_digits_inj in Hts, Hseq.
  unfold emitted. f_equal; lia.
Qed.

Lemma generateV1_never_repeats_witness :
  NoDup [js "1609459200000-1-0-abcd-efgh"; js "1609459200000-1-1-abcd-efgh"].
Proof.
  pose (this := {| sequence := 0; lastTimestamp := -1; machineId := of_Z 1 |}).
  pose (clock := [1609459200000; 1609459200000]).
  pose (randoms := [(js "0.abcd1", js "0.efgh2"); (js "0.abcd1", js "0.efgh2")]).
  assert (Hsorted : Sorted Z.le clock).
  { unfold clock. repeat constructor; discriminate. }
  assert (Hepoch : Forall epoch_reading clock).
  { unfold clock, epoch_reading. repeat constructor; discriminate. }
  assert (Hm : 0 <= 1 <= 1023) by lia.
  exact (generateV1_never_repeats (fun _ => []) 1 this clock randoms _ _ _
                                  eq_refl Hm Hsorted Hepoch eq_refl).
Defined.

(** X3. A clock that returns to a reading it has left makes the instance
    repeat itself: reading [t], then another value, then [t] again gives
    timestamp [t] and sequence 0 both times, the instance is back in the
    state of the first call, and with equal draws the very same identifier
    is returned twice. *)
Theorem generateV1_repeats_after_regression (f : Q -> jstring)
        (this : TUIDGenerator) (t u : Z) (clock : Clock)
        (a1 a2 b1 b2 c1 c2 : jstring) :
  t <> lastTimestamp this -> u <> t ->
  let first := {| sequence := 0; lastTimestamp := t;
                  machineId := machineId this |} in
  let second := {| sequence := 0; lastTimestamp := u;
                   machineId := machineId this |} in
  generateMany f this (t :: u :: t :: clock) [(a1, a2); (b1, b2); (c1, c2)] =
  Some ([(template f t (machineId this) 0
                   (substring a1 2 6) (substring a2 2 6), first);
         (template f u (machineId this) 0
                   (substring b1 2 6) (substring b2 2 6), second);
         (template f t (machineId this) 0
                   (substring c1 2 6) (substring c2 2 6), first)],
        first, clock).
Proof.
  intros Ht Hu first second. cbn [generateMany].
  rewrite generateV1_new_timestamp by assumption.
  rewrite generateV1_new_timestamp by (cbn [lastTimestamp]; assumption).
  rewrite generateV1_new_timestamp by (cbn [lastTimestamp]; congruence).
  reflexivity.
Qed.

Lemma generateV1_repeats_after_regression_witness :
  generateMany (fun _ => [])
               {| sequence := 0; lastTimestamp := -1; machineId := of_Z 1 |}
               [1609459200005; 1609459200004; 1609459200005]
               [(js "0.abcd1", js "0.efgh2"); (js "0.ijkl3", js "0.mnop4");
                (js "0.abcd1", js "0.efgh2")] =
  Some ([(js "1609459200005-1-0-abcd-efgh",
          {| sequence := 0; lastTimestamp := 1609459200005;
             machineId := of_Z 1 |});
         (js "1609459200004-1-0-ijkl-mnop",
          {| sequence := 0; lastTimestamp := 1609459200004;
             machineId := of_Z 1 |});
         (js "1609459200005-1-0-abcd-efgh",
          {| sequence := 0; lastTimestamp := 1609459200005;
             machineId := of_Z 1 |})],
        {| sequence := 0; lastTimestamp := 1609459200005;
           machineId := of_Z 1 |}, []).
Proof.
  assert (Ht : 1609459200005 <> -1) by discriminate.
  assert (Hu : 1609459200004 <> 1609459200005) by discriminate.
  exact (generateV1_repeats_after_regression
           (fun _ => [])
           {| sequence := 0; lastTimestamp := -1; machineId := of_Z 1 |}
           1609459200005 1609459200004 []
           (js "0.abcd1") (js "0.efgh2") (js "0.ijkl3") (js "0.mnop4")
           (js "0.abcd1") (js "0.efgh2") Ht Hu).
Defined.

(* ================================================================== *)
(** * Further properties: which generated identifiers are valid         *)
(* ================================================================== *)

Lemma substring_2_6_length (s : jstring) :
  length (substring s 2 6) = 4%nat <-> (6 <= length s)%nat.
Proof.
  unfold substring. rewrite length_firstn, length_skipn. lia.
Qed.

Lemma decimal_digits_13 (t : Z) :
  0 <= t ->
  length (decimal_digits (Z.to_N t)) = 13%nat <-> 10 ^ 12 <= t < 10 ^ 13.
Proof.
  intros Ht. change (10 ^ 12) with 1000000000000.
  change (10 ^ 13) with 10000000000000. split.
  - intros Hlen. split.
    + destruct (Z_lt_le_dec t 1000000000000) as [Hsmall|]; [|assumption].
      assert (length (decimal_digits (Z.to_N t)) <= 12)%nat; [|lia].
      apply (decimal_digits_length_le 11).
      change (10 ^ N.of_nat 12)%N with 1000000000000%N. lia.
    + pose proof (decimal_value_bounds _ (decimal_digits_are_digits (Z.to_N t)))
        as Hb.
      rewrite decimal_value_decimal_digits, Hlen in Hb.
      change (10 ^ Z.of_nat 13) with 10000000000000 in Hb. lia.
  - intros Hwin. apply (decimal_digits_length 12); [|right];
      change (10 ^ N.of_nat 13)%N with 10000000000000%N;
      change (10 ^ N.of_nat 12)%N with 1000000000000%N; lia.
Qed.

Lemma decimal_digits_upto_4 (n : Z) :
  0 <= n <= 9999 -> (1 <= length (decimal_digits (Z.to_N n)) <= 4)%nat.
Proof.
  intros Hn. split; [apply decimal_digits_nonempty|].
  apply (decimal_digits_length_le 3).
  change (10 ^ N.of_nat 4)%N with 10000%N. lia.
Qed.

(** The composed identifier, cut in its five fields. *)
Lemma template_split (f : Q -> jstring) (timestamp m sequence : Z)
      (seg1 seg2 : jstring) :
  0 <= timestamp < 10 ^ 21 -> 0 <= m < 10 ^ 21 -> 0 <= sequence < 10 ^ 21 ->
  ~ In dash seg1 -> ~ In dash seg2 ->
  split dash (template f timestamp (of_Z m) sequence seg1 seg2) =
  [decimal_digits (Z.to_N timestamp); decimal_digits (Z.to_N m);
   decimal_digits (Z.to_N sequence); seg1; seg2].
Proof.
  intros Ht Hm Hs H1 H2.
  rewrite template_fields, split_app, split_without by assumption.
  reflexivity.
Qed.

Lemma template_count_dash (f : Q -> jstring) (timestamp m sequence : Z)
      (seg1 seg2 : jstring) :
  0 <= timestamp < 10 ^ 21 -> 0 <= m < 10 ^ 21 -> 0 <= sequence < 10 ^ 21 ->
  count_occ N.eq_dec (template f timestamp (of_Z m) sequence seg1 seg2) dash
  = (4 + count_occ N.eq_dec seg1 dash + count_occ N.eq_dec seg2 dash)%nat.
Proof.
  intros Ht Hm Hs. unfold template.
  rewrite !Number_toString_of_Z by assumption. cbn [app].
  repeat (rewrite count_occ_app || rewrite count_occ_cons_eq by reflexivity).
  rewrite !(proj1 (count_occ_not_In N.eq_dec _ _))
    by apply digits_without_dash, decimal_digits_are_digits.
  lia.
Qed.

Section ValidGenerated.

Variable f : Q -> jstring.

(** X4. For an instance with an integral machine identifier in range, on
    readings after the epoch, the identifier that a call returns passes
    [isValidTUID] exactly when the timestamp it carries has 13 digits and
    each of the two renderings holds at least six code units, the four cut
    out of each being lowercase letters or digits. *)
Theorem generateV1_valid_iff (m : Z) (this : TUIDGenerator) (clock : Clock)
        (random1 random2 tuid : jstring) (this' : TUIDGenerator)
        (clock' : Clock) :
  machineId this = of_Z m -> 0 <= m <= 1023 ->
  Forall epoch_reading clock ->
  generateV1 f this clock random1 random2 = Some (tuid, this', clock') ->
  isValidTUID tuid = true <->
  10 ^ 12 <= lastTimestamp this' < 10 ^ 13
  /\ (6 <= length random1)%nat
  /\ Forall lowercase_alphanumeric (substring random1 2 6)
  /\ (6 <= length random2)%nat
  /\ Forall lowercase_alphanumeric (substring random2 2 6).
Proof.
  intros Hm Hrange Hepoch Hgen.
  destruct (generateV1_reading _ _ _ _ _ _ _ _ Hgen) as (used & ->).
  apply Forall_app in Hepoch. destruct Hepoch as [_ Hepoch].
  inversion Hepoch as [|? ? Hnow _]; subst. unfold epoch_reading in Hnow.
  destruct (generateV1_result _ _ _ _ _ _ _ _ Hgen) as (-> & _ & Hseq).
  rewrite Hm. rewrite <- !substring_2_6_length.
  set (t := lastTimestamp this') in *. set (s := sequence this') in *.
  set (seg1 := substring random1 2 6). set (seg2 := substring random2 2 6).
  assert (Bt : 0 <= t < 10 ^ 21)
    by (change (10 ^ 21) with 1000000000000000000000; lia).
  assert (Bm : 0 <= m < 10 ^ 21)
    by (change (10 ^ 21) with 1000000000000000000000; lia).
  assert (Bs : 0 <= s < 10 ^ 21)
    by (change (10 ^ 21) with 1000000000000000000000; lia).
  rewrite isValidTUID_iff_format. split.
  - intros (ts & mid & sq & s1 & s2 & Hf).
    pose proof (count_dash_v1_fields _ _ _ _ _ _ Hf) as Hcount.
    rewrite template_count_dash in Hcount by assumption.
    assert (D1 : ~ In dash seg1)
      by (apply (count_occ_not_In N.eq_dec); lia).
    assert (D2 : ~ In dash seg2)
      by (apply (count_occ_not_In N.eq_dec); lia).
    pose proof (split_v1_fields _ _ _ _ _ _ Hf) as Hsplit.
    rewrite template_split in Hsplit by assumption.
    injection Hsplit as <- <- <- <- <-.
    destruct Hf as (_ & Lts & _ & _ & _ & _ & _ & L1 & A1 & L2 & A2).
    apply decimal_digits_13 in Lts; [|lia]. tauto.
  - intros (Hwin & L1 & A1 & L2 & A2).
    exists (decimal_digits (Z.to_N t)), (decimal_digits (Z.to_N m)),
      (decimal_digits (Z.to_N s)), seg1, seg2.
    unfold v1_fields. split.
    { unfold template. rewrite !Number_toString_of_Z by assumption.
      reflexivity. }
    split; [apply decimal_digits_13; [lia|assumption]|].
    split; [apply decimal_digits_are_digits|].
    split; [apply decimal_digits_upto_4; lia|].
    split; [apply decimal_digits_are_digits|].
    split; [apply decimal_digits_upto_4; lia|].
    split; [apply decimal_digits_are_digits|]. tauto.
Qed.

(** X5. Under the same conditions, a generated identifier that passes
    [isValidTUID] is classified ["v1"] and parsed back to what the call
    put in: the timestamp and sequence left in the instance, the machine
    identifier of the instance, and the two segments cut from the
    renderings. *)
Theorem generateV1_parse_round_trip (m : Z) (this : TUIDGenerator)
        (clock : Clock) (random1 random2 tuid : jstring)
        (this' : TUIDGenerator) (clock' : Clock) :
  machineId this = of_Z m -> 0 <= m <= 1023 ->
  Forall epoch_reading clock ->
  generateV1 f this clock random1 random2 = Some (tuid, this', clock') ->
  isValidTUID tuid = true ->
  getTUIDVersion tuid = js "v1"
  /\ parseTUID tuid =
     Some {| Parsed.timestamp := of_Z (lastTimestamp this');
             Parsed.machineId := machineId this;
             Parsed.sequence := of_Z (sequence this');
             Parsed.randomString1 := Some (substring random1 2 6);
             Parsed.randomString2 := Some (substring random2 2 6) |}.
Proof.
  intros Hm Hrange Hepoch Hgen Hvalid.
  split; [unfold getTUIDVersion; now rewrite Hvalid|].
  pose proof (proj1 (generateV1_valid_iff _ _ _ _ _ _ _ _
                       Hm Hrange Hepoch Hgen) Hvalid)
    as (Hwin & L1 & A1 & L2 & A2).
  apply substring_2_6_length in L1, L2.
  destruct (generateV1_result _ _ _ _ _ _ _ _ Hgen) as (-> & _ & Hseq).
  change (10 ^ 12) with 1000000000000 in Hwin.
  change (10 ^ 13) with 10000000000000 in Hwin.
  rewrite Hm.
  rewrite (parseTUID_fields _ (decimal_digits (Z.to_N (lastTimestamp this')))
             (decimal_digits (Z.to_N m))
             (decimal_digits (Z.to_N (sequence this')))
             (substring random1 2 6) (substring random2 2 6)).
  - rewrite !decimal_value_decimal_digits, !Z2N.id by lia. reflexivity.
  - unfold v1_fields. split.
    { unfold template.
      rewrite !Number_toString_of_Z
        by (change (10 ^ 21) with 1000000000000000000000; lia).
      reflexivity. }
    split; [apply decimal_digits_13;
            [lia|change (10 ^ 12) with 1000000000000;
                 change (10 ^ 13) with 10000000000000; lia]|].
    split; [apply decimal_digits_are_digits|].
    split; [apply decimal_digits_upto_4; lia|].
    split; [apply decimal_digits_are_digits|].
    split; [apply decimal_digits_upto_4; lia|].
    split; [apply decimal_digits_are_digits|]. tauto.
Qed.

(** X6. An instance whose machine identifier is [NaN], which the
    constructor lets through, never returns an identifier that passes
    [isValidTUID] or that [parseTUID] reads. *)
Theorem generateV1_NaN_never_valid (this : TUIDGenerator) (clock : Clock)
        (randoms : list (jstring * jstring))
        (out : list (jstring * TUIDGenerator)) (final : TUIDGenerator)
        (clock' : Clock) :
  machineId this = JNaN ->
  generateMany f this clock randoms = Some (out, final, clock') ->
  Forall (fun o => isValidTUID (fst o) = false /\ parseTUID (fst o) = None) out.
Proof.
  intros Hnan Hrun.
  pose proof (generateMany_rendered _ _ _ _ _ _ _ Hrun) as Hrendered.
  eapply Forall_impl; [|exact Hrendered].
  intros [tuid g] (seg1 & seg2 & Htuid). cbn [fst snd] in *.
  assert (Hinvalid : isValidTUID tuid = false).
  { destruct (isValidTUID tuid) eqn:Hvalid; [exfalso|reflexivity].
    apply isValidTUID_iff_format in Hvalid.
    apply (no_uppercase_in_v1_format tuid 78%N Hvalid).
    - rewrite Htuid, Hnan. unfold template. cbn [Number_toString].
      apply in_or_app. right. apply in_or_app. right.
      apply in_or_app. left. now left.
    - unfold uppercase_letter. lia. }
  split; [assumption|]. unfold parseTUID. now rewrite Hinvalid.
Qed.

End ValidGenerated.

Lemma generateV1_valid_iff_witness :
  isValidTUID (js "1609459200000-1-0-abcd-efgh") = true <->
  10 ^ 12 <= 1609459200000 < 10 ^ 13
  /\ (6 <= length (js "0.abcd1"))%nat
  /\ Forall lowercase_alphanumeric (substring (js "0.abcd1") 2 6)
  /\ (6 <= length (js "0.efgh2"))%nat
  /\ Forall lowercase_alphanumeric (substring (js "0.efgh2") 2 6).
Proof.
  pose (this := {| sequence := 0; lastTimestamp := -1; machineId := of_Z 1 |}).
  assert (Hm : 0 <= 1 <= 1023) by lia.
  assert (Hepoch : Forall epoch_reading [1609459200000]).
  { unfold epoch_reading. repeat constructor; discriminate. }
  exact (generateV1_valid_iff (fun _ => []) 1 this [1609459200000]
                              (js "0.abcd1") (js "0.efgh2") _ _ _
                              eq_refl Hm Hepoch eq_refl).
Defined.

Lemma generateV1_parse_round_trip_witness :
  getTUIDVersion (js "1609459200000-1-0-abcd-efgh") = js "v1"
  /\ parseTUID (js "1609459200000-1-0-abcd-efgh") =
     Some {| Parsed.timestamp := of_Z 1609459200000;
             Parsed.machineId := of_Z 1;
             Parsed.sequence := of_Z 0;
             Parsed.randomString1 := Some (js "abcd");
             Parsed.randomString2 := Some (js "efgh") |}.
Proof.
  pose (this := {| sequence := 0; lastTimestamp := -1; machineId := of_Z 1 |}).
  assert (Hm : 0 <= 1 <= 1023) by lia.
  assert (Hepoch : Forall epoch_reading [1609459200000]).
  { unfold epoch_reading. repeat constructor; discriminate. }
  exact (generateV1_parse_round_trip (fun _ => []) 1 this [1609459200000]
                                     (js "0.abcd1") (js "0.efgh2") _ _ _
                                     eq_refl Hm Hepoch eq_refl eq_refl).
Defined.

Lemma generateV1_NaN_never_valid_witness :
  Forall (fun o => isValidTUID (fst o) = false /\ parseTUID (fst o) = None)
         [(js "1609459200000-NaN-0-abcd-efgh",
           {| sequence := 0; lastTimestamp := 1609459200000;
              machineId := JNaN |})].
Proof.
  exact (generateV1_NaN_never_valid
           (fun _ => [])
           {| sequence := 0; lastTimestamp := -1; machineId := JNaN |}
           [1609459200000] [(js "0.abcd1", js "0.efgh2")] _ _ _
           eq_refl eq_refl).
Defined.

(* ================================================================== *)
(** * Further properties: accepted strings and parsed values            *)
(* ================================================================== *)

(** X7. A string that [isValidTUID] accepts has between 27 and 33 code
    units, exactly four of them dashes, the others digits or lowercase
    letters. *)
Theorem isValidTUID_shape (text : jstring) :
  isValidTUID text = true ->
  (27 <= length text <= 33)%nat
  /\ count_occ N.eq_dec text dash = 4%nat
  /\ Forall (fun c => decimal_digit c \/ lowercase_letter c \/ c = dash) text.
Proof.
  intros Hvalid. apply isValidTUID_iff_format in Hvalid.
  destruct Hvalid as (ts & mid & sq & seg1 & seg2 & Hf).
  split; [|split].
  - destruct Hf as (-> & Lts & _ & Lmid & _ & Lsq & _ & L1 & _ & L2 & _).
    repeat (rewrite length_app || cbn [length]). lia.
  - exact (count_dash_v1_fields _ _ _ _ _ _ Hf).
  - destruct Hf as (-> & _ & Ats & _ & Amid & _ & Asq & _ & A1 & _ & A2).
    assert (Hd : forall s, Forall decimal_digit s ->
              Forall (fun c => decimal_digit c \/ lowercase_letter c
                               \/ c = dash) s)
      by (intros s; apply Forall_impl; tauto).
    assert (Ha : forall s, Forall lowercase_alphanumeric s ->
              Forall (fun c => decimal_digit c \/ lowercase_letter c
                               \/ c = dash) s)
      by (intros s; apply Forall_impl; unfold lowercase_alphanumeric; tauto).
    repeat (apply Forall_app; split; [auto|]; apply Forall_cons; [tauto|]).
    auto.
Qed.

Lemma isValidTUID_shape_witness :
  (27 <= length (js "1697034958283-512-3-abc1-def2") <= 33)%nat
  /\ count_occ N.eq_dec (js "1697034958283-512-3-abc1-def2") dash = 4%nat
  /\ Forall (fun c => decimal_digit c \/ lowercase_letter c \/ c = dash)
            (js "1697034958283-512-3-abc1-def2").
Proof.
  exact (isValidTUID_shape (js "1697034958283-512-3-abc1-def2") eq_refl).
Defined.

(** X8. Whatever [parseTUID] returns other than null holds three integers,
    never [NaN]: a timestamp below 10^13, a machine identifier and a
    sequence of at most 9999, and two segments that are present, four
    lowercase letters or digits each. *)
Theorem parseTUID_ranges (text : jstring) (p : Parsed.t) :
  parseTUID text = Some p ->
  exists t m s seg1 seg2,
    p = {| Parsed.timestamp := of_Z t;
           Parsed.machineId := of_Z m;
           Parsed.sequence := of_Z s;
           Parsed.randomString1 := Some seg1;
           Parsed.randomString2 := Some seg2 |}
    /\ 0 <= t < 10 ^ 13 /\ 0 <= m <= 9999 /\ 0 <= s <= 9999
    /\ length seg1 = 4%nat /\ Forall lowercase_alphanumeric seg1
    /\ length seg2 = 4%nat /\ Forall lowercase_alphanumeric seg2.
Proof.
  intros Hparse.
  assert (Hvalid : isValidTUID text = true).
  { unfold parseTUID in Hparse.
    destruct (isValidTUID text); [reflexivity|discriminate]. }
  apply isValidTUID_iff_format in Hvalid.
  destruct Hvalid as (ts & mid & sq & seg1 & seg2 & Hf).
  rewrite (parseTUID_fields _ _ _ _ _ _ Hf) in Hparse.
  injection Hparse as <-.
  destruct Hf as (_ & Lts & Ats & Lmid & Amid & Lsq & Asq & L1 & A1 & L2 & A2).
  exists (decimal_value ts), (decimal_value mid), (decimal_value sq),
    seg1, seg2.
  pose proof (decimal_value_bounds _ Ats) as Bts.
  pose proof (decimal_value_bounds _ Amid) as Bmid.
  pose proof (decimal_value_bounds _ Asq) as Bsq.
  rewrite Lts in Bts.
  assert (P4 : forall n, (n <= 4)%nat -> 10 ^ Z.of_nat n <= 10 ^ 4)
    by (intros n Hn; apply Z.pow_le_mono_r; lia).
  pose proof (P4 (length mid)). pose proof (P4 (length sq)).
  change (10 ^ 4) with 10000 in *.
  repeat split; try assumption; lia.
Qed.

Lemma parseTUID_ranges_witness :
  exists t m s seg1 seg2,
    {| Parsed.timestamp := of_Z 1697034958283;
       Parsed.machineId := of_Z 512;
       Parsed.sequence := of_Z 3;
       Parsed.randomString1 := Some (js "abc1");
       Parsed.randomString2 := Some (js "def2") |}
    = {| Parsed.timestamp := of_Z t;
         Parsed.machineId := of_Z m;
         Parsed.sequence := of_Z s;
         Parsed.randomString1 := Some seg1;
         Parsed.randomString2 := Some seg2 |}
    /\ 0 <= t < 10 ^ 13 /\ 0 <= m <= 9999 /\ 0 <= s <= 9999
    /\ length seg1 = 4%nat /\ Forall lowercase_alphanumeric seg1
    /\ length seg2 = 4%nat /\ Forall lowercase_alphanumeric seg2.
Proof.
  exact (parseTUID_ranges (js "1697034958283-512-3-abc1-def2") _ eq_refl).
Defined.

(** X9. Leading zeros are accepted and ignored: putting a [0] in front of
    a machine-identifier field of fewer than four digits gives another
    string that [isValidTUID] accepts and that [parseTUID] maps to the same
    object, so distinct identifiers can parse alike. *)
Theorem parseTUID_leading_zero (text ts mid sq seg1 seg2 : jstring) :
  isValidTUID text = true ->
  split dash text = [ts; mid; sq; seg1; seg2] ->
  (length mid < 4)%nat ->
  let padded :=
    ts ++ dash :: (48%N :: mid) ++ dash :: sq ++ dash :: seg1 ++ dash :: seg2 in
  isValidTUID padded = true
  /\ parseTUID padded = parseTUID text
  /\ padded <> text.
Proof.
  intros Hvalid Hsplit Hshort padded.
  apply isValidTUID_iff_format in Hvalid.
  destruct Hvalid as (ts' & mid' & sq' & s1 & s2 & Hf).
  rewrite (split_v1_fields _ _ _ _ _ _ Hf) in Hsplit.
  injection Hsplit as -> -> -> -> ->.
  assert (Hpadded : v1_fields padded ts (48%N :: mid) sq seg1 seg2).
  { destruct Hf as (_ & Lts & Ats & Lmid & Amid & Rest).
    unfold v1_fields. split; [reflexivity|].
    split; [assumption|]. split; [assumption|].
    split; [cbn [length]; lia|].
    split; [constructor; [unfold decimal_digit; lia|assumption]|].
    exact Rest. }
  split; [|split].
  - apply isValidTUID_iff_format. red. eauto 6.
  - rewrite (parseTUID_fields _ _ _ _ _ _ Hpadded),
            (parseTUID_fields _ _ _ _ _ _ Hf).
    cbn [decimal_value]. change (Z.of_N 48 - 48) with 0.
    now rewrite Z.mul_0_l, Z.add_0_l.
  - intros Heq. apply (f_equal (@length N)) in Heq.
    destruct Hf as (-> & _). unfold padded in Heq.
    repeat (rewrite length_app in Heq || cbn [length] in Heq). lia.
Qed.

Lemma parseTUID_leading_zero_witness :
  isValidTUID (js "1697034958283-0512-3-abc1-def2") = true
  /\ parseTUID (js "1697034958283-0512-3-abc1-def2")
     = parseTUID (js "1697034958283-512-3-abc1-def2")
  /\ js "1697034958283-0512-3-abc1-def2" <> js "1697034958283-512-3-abc1-def2".
Proof.
  assert (Hshort : (length (js "512") < 4)%nat) by (cbn; lia).
  exact (parseTUID_leading_zero
           (js "1697034958283-512-3-abc1-def2")
           (js "1697034958283") (js "512") (js "3") (js "abc1") (js "def2")
           eq_refl eq_refl Hshort).
Defined.

(* ================================================================== *)
(** * Further properties: when a call returns, and how many per reading *)
(* ================================================================== *)

Lemma busyWait_none (last timestamp : Z) (clock : Clock) :
  busyWait last timestamp clock = None ->
  timestamp <= last /\ Forall (fun reading => reading <= last) clock.
Proof.
  revert timestamp. induction clock as [|now clock IH]; intros timestamp;
    cbn [busyWait]; destruct (timestamp <=? last) eqn:Hle;
    try discriminate; apply Z.leb_le in Hle.
  - auto.
  - intros Hw. destruct (IH _ Hw). auto.
Qed.

Section Returning.

Variable f : Q -> jstring.

(** X10. A call keeps waiting only in one situation: its first reading
    equals [lastTimestamp], the incremented sequence wraps to 0, and no
    later reading is above [lastTimestamp].  In every situation where the
    first reading differs from [lastTimestamp] or the sequence does not
    wrap, it returns having consumed exactly that reading. *)
Theorem generateV1_waits_iff (this : TUIDGenerator) (now : Z) (rest : Clock)
        (random1 random2 : jstring) :
  (generateV1 f this (now :: rest) random1 random2 = None <->
   now = lastTimestamp this
   /\ (sequence this + 1) mod 4096 = 0
   /\ Forall (fun reading => reading <= lastTimestamp this) rest)
  /\ (now <> lastTimestamp this \/ (sequence this + 1) mod 4096 <> 0 ->
      exists tuid this',
        generateV1 f this (now :: rest) random1 random2
        = Some (tuid, this', rest)
        /\ lastTimestamp this' = now).
Proof.
  destruct (Z.eq_dec now (lastTimestamp this)) as [->|Hne];
    [destruct (Z.eq_dec ((sequence this + 1) mod 4096) 0) as [Hz|Hnz]|].
  - rewrite generateV1_exhausted by assumption. split.
    + destruct (busyWait _ _ rest) as [[timestamp left]|] eqn:Hw.
      * split; [discriminate|]. intros (_ & _ & Hall).
        rewrite busyWait_stuck in Hw; [discriminate|lia|assumption].
      * apply busyWait_none in Hw. tauto.
    + intros [H|H]; congruence.
  - rewrite generateV1_same_timestamp by assumption. split.
    + split; [discriminate|tauto].
    + intros _. eauto.
  - rewrite generateV1_new_timestamp by assumption. split.
    + split; [discriminate|tauto].
    + intros _. eauto.
Qed.



End Returning.

Lemma generateV1_waits_iff_witness :
  exists tuid this',
    generateV1 (fun _ => [])
               {| sequence := 4095; lastTimestamp := 1609459200000;
                  machineId := of_Z 1 |}
               [1609459200001; 1609459200002] (js "0.abcd1") (js "0.efgh2")
    = Some (tuid, this', [1609459200002])
    /\ lastTimestamp this' = 1609459200001.
Proof.
  apply (proj2 (generateV1_waits_iff
                  (fun _ => [])
                  {| sequence := 4095; lastTimestamp := 1609459200000;
                     machineId := of_Z 1 |}
                  1609459200001 [1609459200002] (js "0.abcd1") (js "0.efgh2"))).
  left. discriminate.
Defined.


(* ================================================================== *)
(** * Further properties: the numbers the constructor accepts           *)
(* ================================================================== *)

(** X12. Over all numbers, the constructor returns an instance exactly for
    [NaN] and for the finite values from 0 to 1023, bounds included; both
    infinities are refused.  The instance it returns always starts with
    sequence 0 and [lastTimestamp] -1 and keeps the number given. *)
Theorem constructor_accepts_iff (x : jsnum) :
  ((exists this, new_TUIDGenerator x = inr this) <->
   x = JNaN \/ exists q, x = JNum q /\ (0 <= q)%Q /\ (q <= 1023)%Q)
  /\ (forall this,
         new_TUIDGenerator x = inr this ->
         this = {| sequence := 0; lastTimestamp := -1; machineId := x |})
  /\ (forall negative e,
         new_TUIDGenerator (JInf negative) = inl e ->
         e = Error (js "Machine ID must be between 0 and 1023.")).
Proof.
  split; [|split].
  - unfold new_TUIDGenerator, js_gt.
    destruct x as [q| |[|]]; cbn [js_lt of_Z orb negb andb].
    + change (inject_Z 0) with 0%Q. change (inject_Z 1023) with 1023%Q.
      destruct (Qle_bool 0 q) eqn:H0;
        destruct (Qle_bool q 1023) eqn:H1; cbn [negb orb]; split.
      * intros _. right. exists q.
        apply Qle_bool_iff in H0, H1. auto.
      * eauto.
      * intros [this Habs]. discriminate.
      * intros [Habs|(q' & [= <-] & _ & Hq)]; [discriminate|].
        apply Qle_bool_iff in Hq. congruence.
      * intros [this Habs]. discriminate.
      * intros [Habs|(q' & [= <-] & Hq & _)]; [discriminate|].
        apply Qle_bool_iff in Hq. congruence.
      * intros [this Habs]. discriminate.
      * intros [Habs|(q' & [= <-] & Hq & _)]; [discriminate|].
        apply Qle_bool_iff in Hq. congruence.
    + split; eauto.
    + split; [intros [this Habs]; discriminate|].
      intros [Habs|(q & Habs & _)]; discriminate.
    + split; [intros [this Habs]; discriminate|].
      intros [Habs|(q & Habs & _)]; discriminate.
  - intros this. unfold new_TUIDGenerator.
    destruct (js_lt x (of_Z 0) || js_gt x (of_Z 1023)); [discriminate|].
    now intros [= <-].
  - intros [|] e; cbn; now intros [= <-].
Qed.

Lemma constructor_accepts_iff_witness :
  {| sequence := 0; lastTimestamp := -1; machineId := JNum (1023 # 1) |}
  = {| sequence := 0; lastTimestamp := -1; machineId := JNum (1023 # 1) |}.
Proof.
  exact (proj1 (proj2 (constructor_accepts_iff (JNum (1023 # 1)))) _ eq_refl).
Defined.

(* ================================================================== *)
(** * Further properties: how identifiers sort as strings               *)
(* ================================================================== *)

Lemma jstring_lt_common_prefix (p a b : jstring) :
  jstring_lt (p ++ a) (p ++ b) = jstring_lt a b.
Proof.
  induction p as [|c p IH]; cbn [app jstring_lt]; [reflexivity|].
  now rewrite N.ltb_irrefl, N.eqb_refl, IH.
Qed.

(** Digit strings of one length sort as their values. *)
Lemma jstring_lt_digits (da db ra rb : jstring) :
  Forall decimal_digit da -> Forall decimal_digit db ->
  length da = length db ->
  decimal_value da < decimal_value db ->
  jstring_lt (da ++ ra) (db ++ rb) = true.
Proof.
  intros Ha. revert db. induction Ha as [|x da Hx Ha IH]; intros db Hb Hlen Hlt.
  - destruct db; [cbn in Hlt; lia|discriminate].
  - destruct Hb as [|y db Hy Hb]; [discriminate|].
    cbn [length] in Hlen. injection Hlen as Hlen.
    cbn [decimal_value] in Hlt. rewrite <- Hlen in Hlt.
    pose proof (decimal_value_bounds _ Ha) as Ba.
    pose proof (decimal_value_bounds _ Hb) as Bb.
    rewrite <- Hlen in Bb.
    unfold decimal_digit in Hx, Hy.
    cbn [app jstring_lt].
    destruct (N.lt_trichotomy x y) as [Hxy|[Hxy|Hxy]].
    + apply N.ltb_lt in Hxy. now rewrite Hxy.
    + subst y. rewrite N.eqb_refl, IH; auto using orb_true_r. lia.
    + exfalso.
      assert (Z.of_N y - 48 + 1 <= Z.of_N x - 48) by lia.
      nia.
Qed.

Section Sorting.

Variable f : Q -> jstring.

(** X13. Identifiers sort by timestamp: of two generated identifiers that
    carry 13-digit timestamps, whatever instances made them, the one with
    the smaller timestamp is the smaller string. *)
Theorem generateV1_sorts_by_timestamp
        (this1 this2 : TUIDGenerator) (clock1 clock2 : Clock)
        (a1 a2 b1 b2 tuid1 tuid2 : jstring)
        (this1' this2' : TUIDGenerator) (clock1' clock2' : Clock) :
  generateV1 f this1 clock1 a1 a2 = Some (tuid1, this1', clock1') ->
  generateV1 f this2 clock2 b1 b2 = Some (tuid2, this2', clock2') ->
  10 ^ 12 <= lastTimestamp this1' ->
  lastTimestamp this1' < lastTimestamp this2' ->
  lastTimestamp this2' < 10 ^ 13 ->
  jstring_lt tuid1 tuid2 = true.
Proof.
  intros Hgen1 Hgen2 Hlow Hlt Hhigh.
  destruct (generateV1_result _ _ _ _ _ _ _ _ Hgen1) as (-> & _).
  destruct (generateV1_result _ _ _ _ _ _ _ _ Hgen2) as (-> & _).
  change (10 ^ 12) with 1000000000000 in Hlow.
  change (10 ^ 13) with 10000000000000 in Hhigh.
  unfold template.
  rewrite (Number_toString_of_Z f (lastTimestamp this1')),
          (Number_toString_of_Z f (lastTimestamp this2'))
    by (change (10 ^ 21) with 1000000000000000000000; lia).
  apply jstring_lt_digits; try apply decimal_digits_are_digits.
  - assert (L1 : length (decimal_digits (Z.to_N (lastTimestamp this1')))
                 = 13%nat).
    { apply decimal_digits_13; [lia|].
      change (10 ^ 12) with 1000000000000.
      change (10 ^ 13) with 10000000000000. lia. }
    assert (L2 : length (decimal_digits (Z.to_N (lastTimestamp this2')))
                 = 13%nat).
    { apply decimal_digits_13; [lia|].
      change (10 ^ 12) with 1000000000000.
      change (10 ^ 13) with 10000000000000. lia. }
    now rewrite L1, L2.
  - rewrite !decimal_value_decimal_digits. lia.
Qed.

(** X14. Within one millisecond the string order does not follow the call
    order: an instance at sequence 8 that reads its [lastTimestamp] twice
    returns an identifier numbered 9 and then one numbered 10, and the
    second is the smaller string. *)
Theorem generateV1_string_order_inverts (this : TUIDGenerator) (rest : Clock)
        (a1 a2 b1 b2 : jstring) :
  sequence this = 8 ->
  exists tuid9 tuid10 this9 this10,
    generateMany f this (lastTimestamp this :: lastTimestamp this :: rest)
                 [(a1, a2); (b1, b2)]
    = Some ([(tuid9, this9); (tuid10, this10)], this10, rest)
    /\ sequence this9 = 9 /\ sequence this10 = 10
    /\ lastTimestamp this9 = lastTimestamp this10
    /\ jstring_lt tuid10 tuid9 = true.
Proof.
  intros Hseq. cbn [generateMany].
  rewrite generateV1_same_timestamp by (rewrite Hseq; discriminate).
  rewrite Hseq. change ((8 + 1) mod 4096) with 9.
  change (lastTimestamp this :: rest)
    with (lastTimestamp {| sequence := 9; lastTimestamp := lastTimestamp this;
                           machineId := machineId this |} :: rest).
  rewrite (generateV1_same_timestamp
             f {| sequence := 9; lastTimestamp := lastTimestamp this;
                  machineId := machineId this |})
    by (cbn [sequence]; discriminate).
  cbn [sequence lastTimestamp machineId].
  change ((9 + 1) mod 4096) with 10.
  do 4 eexists. split; [reflexivity|].
  cbn [sequence lastTimestamp]. repeat split.
  unfold template.
  rewrite (jstring_lt_common_prefix
             (Number_toString f (of_Z (lastTimestamp this)))).
  rewrite (jstring_lt_common_prefix [dash]).
  rewrite (jstring_lt_common_prefix (Number_toString f (machineId this))).
  rewrite (jstring_lt_common_prefix [dash]).
  reflexivity.
Qed.

End Sorting.

Lemma generateV1_sorts_by_timestamp_witness :
  jstring_lt (js "1609459200000-512-4095-zzzz-zzzz")
             (js "1609459200001-1-0-aaaa-aaaa") = true.
Proof.
  assert (Hlow : 10 ^ 12 <= 1609459200000) by discriminate.
  assert (Hlt : 1609459200000 < 1609459200001) by reflexivity.
  assert (Hhigh : 1609459200001 < 10 ^ 13) by reflexivity.
  exact (generateV1_sorts_by_timestamp
           (fun _ => [])
           {| sequence := 4094; lastTimestamp := 1609459200000;
              machineId := of_Z 512 |}
           {| sequence := 0; lastTimestamp := -1; machineId := of_Z 1 |}
           [1609459200000] [1609459200001]
           (js "0.zzzzz") (js "0.zzzzz") (js "0.aaaaa") (js "0.aaaaa")
           _ _ _ _ _ _ eq_refl eq_refl Hlow Hlt Hhigh).
Defined.

Lemma generateV1_string_order_inverts_witness :
  exists tuid9 tuid10 this9 this10,
    generateMany (fun _ => [])
                 {| sequence := 8; lastTimestamp := 1609459200000;
                    machineId := of_Z 1 |}
                 [1609459200000; 1609459200000]
                 [(js "0.abcd1", js "0.efgh2"); (js "0.abcd1", js "0.efgh2")]
    = Some ([(tuid9, this9); (tuid10, this10)], this10, [])
    /\ sequence this9 = 9 /\ sequence this10 = 10
    /\ lastTimestamp this9 = lastTimestamp this10
    /\ jstring_lt tuid10 tuid9 = true.
Proof.
  exact (generateV1_string_order_inverts
           (fun _ => [])
           {| sequence := 8; lastTimestamp := 1609459200000;
              machineId := of_Z 1 |}
           [] (js "0.abcd1") (js "0.efgh2") (js "0.abcd1") (js "0.efgh2")
           eq_refl).
Defined.

(* ================================================================== *)
(** * Further properties: the first call on a new instance              *)
(* ================================================================== *)

(** X15. The first identifier of a newly constructed instance carries the
    reading and sequence 0, unless the reading is -1, the value
    [lastTimestamp] starts with: that reading is taken for a repeated
    millisecond and the first identifier carries sequence 1. *)
Theorem generateV1_first_call (f : Q -> jstring) (x : jsnum)
        (this : TUIDGenerator) (t : Z) (clock : Clock)
        (random1 random2 : jstring) :
  new_TUIDGenerator x = inr this ->
  (t <> -1 ->
   generateV1 f this (t :: clock) random1 random2 =
   Some (template f t x 0 (substring random1 2 6) (substring random2 2 6),
         {| sequence := 0; lastTimestamp := t; machineId := x |}, clock))
  /\ generateV1 f this (-1 :: clock) random1 random2 =
     Some (template f (-1) x 1 (substring random1 2 6) (substring random2 2 6),
           {| sequence := 1; lastTimestamp := -1; machineId := x |}, clock).
Proof.
  unfold new_TUIDGenerator.
  destruct (js_lt x (of_Z 0) || js_gt x (of_Z 1023)); [discriminate|].
  intros [= <-]. split.
  - intros Ht. now rewrite generateV1_new_timestamp.
  - change (-1 :: clock)
      with (lastTimestamp {| sequence := 0; lastTimestamp := -1;
                             machineId := x |} :: clock).
    now rewrite generateV1_same_timestamp.
Qed.

Lemma generateV1_first_call_witness :
  generateV1 (fun _ => [])
             {| sequence := 0; lastTimestamp := -1; machineId := of_Z 1 |}
             [1609459200000] (js "0.abcd1") (js "0.efgh2") =
  Some (js "1609459200000-1-0-abcd-efgh",
        {| sequence := 0; lastTimestamp := 1609459200000;
           machineId := of_Z 1 |}, []).
Proof.
  assert (Ht : 1609459200000 <> -1) by discriminate.
  exact (proj1 (generateV1_first_call
                  (fun _ => []) (of_Z 1) _ 1609459200000 []
                  (js "0.abcd1") (js "0.efgh2") eq_refl) Ht).
Defined.
